(** * A shallow embedding of the Pokémon catalogue server (src/index.js)

    The server is an Express application over a MongoDB collection (through
    the mongoose model [pokemon]) and a directory of image files.  Each route
    handler of index.js is embedded as a function on an explicit world state
    (the collection and the file system); exceptions are values, and the
    [try]/[catch] of every handler is written out.  The disk storage that
    index.js configures for multer is embedded as well.

    Conventions of the model.
    - JavaScript strings are Rocq strings; a character stands for one code
      unit below 256.  Case folding is the one of the ASCII letters.
    - JavaScript numbers that the handlers compute with are integers or NaN;
      they are carried by [JsNum] over [Z], exact below 2^53.
    - A request body is a map of form fields as multer builds it: strings,
      arrays and nested objects.
    - The library calls ([path], [fs], mongoose) are modelled by what they do
      on these data; the schema of the collection, which is not in index.js,
      follows the data model of the specification. *)

From stdpp Require Import gmap strings list fin_maps pretty.
From Stdlib Require Import ZArith Ascii String Lia.

#[local] Set Warnings "-register-all".
#[local] Open Scope string_scope.
#[local] Open Scope Z_scope.

(** ** JavaScript strings *)

Module Js.

(** StrWhiteSpaceChar, on the code units the model carries: TAB, LF, VT, FF,
    CR, SP and NBSP. *)
Definition is_ws (c : ascii) : bool :=
  let n := N_of_ascii c in
  ((9 <=? n)%N && (n <=? 13)%N) || (n =? 32)%N || (n =? 160)%N.

Fixpoint trimStart (s : string) : string :=
  match s with
  | String c s' => if is_ws c then trimStart s' else s
  | EmptyString => EmptyString
  end.

Fixpoint trimEnd (s : string) : string :=
  match s with
  | String c s' =>
      match trimEnd s' with
      | EmptyString => if is_ws c then EmptyString else String c EmptyString
      | t => String c t
      end
  | EmptyString => EmptyString
  end.

(** [String.prototype.trim] *)
Definition trim (s : string) : string := trimEnd (trimStart s).

(** [s.startsWith(p)] *)
Fixpoint startsWith (p s : string) : bool :=
  match p, s with
  | EmptyString, _ => true
  | String a p', String b s' => if Ascii.eqb a b then startsWith p' s' else false
  | String _ _, EmptyString => false
  end.

(** [s.includes(sub)] *)
Fixpoint includes (sub s : string) : bool :=
  startsWith sub s ||
  match s with
  | String _ s' => includes sub s'
  | EmptyString => false
  end.

(** [s.split(sep)] for a non-empty separator: [skip] counts the characters
    of a separator occurrence still to be passed over, [cur] is the piece
    being read. *)
Fixpoint split_go (sep : string) (skip : nat) (cur : string) (s : string)
  : list string :=
  match s with
  | EmptyString => [cur]
  | String c s' =>
      match skip with
      | S k => split_go sep k cur s'
      | O =>
          if startsWith sep s
          then cur :: split_go sep (String.length sep - 1)%nat EmptyString s'
          else split_go sep O (cur +:+ String c EmptyString) s'
      end
  end.

Definition split (sep s : string) : list string := split_go sep O EmptyString s.

(** [parts.join(sep)] *)
Fixpoint join (sep : string) (parts : list string) : string :=
  match parts with
  | [] => EmptyString
  | [p] => p
  | p :: rest => p +:+ sep +:+ join sep rest
  end.

(** Simple case folding (the ASCII letters). *)
Definition lower (c : ascii) : ascii :=
  let n := N_of_ascii c in
  if (65 <=? n)%N && (n <=? 90)%N then ascii_of_N (n + 32) else c.

Fixpoint toLowerCase (s : string) : string :=
  match s with
  | String c s' => String (lower c) (toLowerCase s')
  | EmptyString => EmptyString
  end.

(** ** JavaScript numbers

    A number is an IEEE 754 double.  The model carries NaN and the finite
    doubles that are integers, each as the integer it is. *)

Inductive JsNum := NaN | Int (z : Z).

#[global] Instance JsNum_eq_dec : EqDecision JsNum.
Proof. solve_decision. Defined.


(** [Number.MAX_SAFE_INTEGER]: up to it, in absolute value, every integer
    is a double, and so is the successor of each. *)
Definition MAX_SAFE_INTEGER : Z := 9007199254740991.

(** [Number.isSafeInteger] *)
Definition safe (z : Z) : Prop := Z.abs z ≤ MAX_SAFE_INTEGER.

(** The integers that are doubles: a significand of 53 bits at most, times
    a power of two. *)
Definition is_double (z : Z) : Prop :=
  ∃ k e, 0 ≤ e ∧ Z.abs k ≤ 9007199254740992 ∧ z = k * 2 ^ e.

(** The double nearest to an integer, a tie going to the even significand:
    up to 2^53 the integer itself; beyond, [ulp] is the distance between
    the doubles around it. *)
Definition to_double (z : Z) : Z :=
  let a := Z.abs z in
  if a <=? 9007199254740992 then z
  else
    let ulp := 2 ^ (Z.log2 a - 52) in
    let q := a / ulp in
    let r := a mod ulp in
    let q' := if (2 * r <? ulp) || ((2 * r =? ulp) && Z.even q) then q
              else q + 1 in
    Z.sgn z * (q' * ulp).

(** [a + b] on two numbers: the sum, rounded. *)
Definition add (a b : Z) : Z := to_double (a + b).

(** ToString on a number, as a template literal does it.  The digits are
    those of the integer, which is what JavaScript prints for a safe
    integer; a greater one it prints with the fewest digits that read back
    as the same double, and with an exponent from 10^21 on. *)
Definition num_toString (n : JsNum) : string :=
  match n with
  | NaN => "NaN"
  | Int z => pretty z
  end.

(** The value of a character as a digit, for radices up to 36. *)
Definition digit_value (c : ascii) : option Z :=
  let n := Z.of_N (N_of_ascii c) in
  if (48 <=? n) && (n <=? 57) then Some (n - 48)
  else if (97 <=? n) && (n <=? 122) then Some (n - 87)
  else if (65 <=? n) && (n <=? 90) then Some (n - 55)
  else None.

(** The longest prefix of radix-[R] digits, as a number: [acc] is [None]
    until a first digit is read. *)
Fixpoint parse_digits (R : Z) (acc : option Z) (s : string) : option Z :=
  match s with
  | EmptyString => acc
  | String c s' =>
      match digit_value c with
      | Some d =>
          if d <? R
          then parse_digits R (Some (default 0 acc * R + d)) s'
          else acc
      | None => acc
      end
  end.

(** [parseInt(string, radix)] on a string; [radix = None] is the call with
    one argument.  The number of the digits read is rounded to a double
    (to a finite one: digits beyond the range of the doubles, which read as
    Infinity, are not told apart). *)
Definition parseInt_string (input : string) (radix : option Z) : JsNum :=
  let S0 := trimStart input in
  let '(sign, S1) :=
    match S0 with
    | String "-" r => (-1, r)
    | String "+" r => (1, r)
    | _ => (1, S0)
    end in
  let R0 := default 0 radix in
  if negb (R0 =? 0) && ((R0 <? 2) || (36 <? R0)) then NaN
  else
    let stripPrefix := (R0 =? 0) || (R0 =? 16) in
    let R1 := if R0 =? 0 then 10 else R0 in
    let '(R, S2) :=
      if stripPrefix && (startsWith "0x" S1 || startsWith "0X" S1)
      then (16, String.substring 2 (String.length S1 - 2)%nat S1)
      else (R1, S1) in
    match parse_digits R None S2 with
    | None => NaN
    | Some m => Int (to_double (sign * m))
    end.

End Js.
Import Js.

(** ** Form values

    What a body or query parser hands to a handler under a key: a string,
    an array (a repeated key) or a nested object (a bracketed key).  An
    absent key reads as [undefined], here [None]. *)

Inductive FormValue :=
  | FStr (s : string)
  | FArr (l : list FormValue)
  | FObj (o : gmap string FormValue).

(** ToBoolean: of these values only the empty string (and [undefined]) is
    falsy. *)
Definition truthy (v : option FormValue) : bool :=
  match v with
  | None | Some (FStr EmptyString) => false
  | Some _ => true
  end.

(** [a || b] on values. *)
Definition js_or (a b : option FormValue) : option FormValue :=
  if truthy a then a else b.

(** ToString.  An array joins the strings of its elements with commas.  An
    object gives [objstr]: the objects of a query string have a prototype
    and read "[object Object]"; those multer nests in a body have none, and
    converting one throws ([None]). *)
Fixpoint toString (objstr : option string) (v : FormValue) : option string :=
  match v with
  | FStr s => Some s
  | FArr l => join "," <$> mapM (toString objstr) l
  | FObj _ => objstr
  end.

(** [v.french] for a value [v] that is not [undefined]: only an object has
    own properties of that kind. *)
Definition get_prop (k : string) (v : FormValue) : option FormValue :=
  match v with
  | FObj o => o !! k
  | _ => None
  end.

(** ** Paths (node's [path.posix]) *)

Module Path.

Definition slash : ascii := "/"%char.
Definition dot : ascii := "."%char.

(** One step of [normalizeString]: [res] is the stack of the segments kept
    so far, the last one first. *)
Definition normalize_step (allowAboveRoot : bool) (res : list string)
  (seg : string) : list string :=
  if decide (seg = "" ∨ seg = ".") then res
  else if decide (seg = "..") then
    match res with
    | last :: res' =>
        if decide (last = "..") then
          (if allowAboveRoot then ".." :: res else res)
        else res'
    | [] => if allowAboveRoot then [".."] else []
    end
  else seg :: res.

Definition normalizeString (p : string) (allowAboveRoot : bool) : string :=
  join "/" (rev (foldl (normalize_step allowAboveRoot) [] (split "/" p))).

Definition endsWithSlash (p : string) : bool :=
  match String.length p with
  | O => false
  | S n => bool_decide (String.get n p = Some slash)
  end.

(** [path.normalize] *)
Definition normalize (p : string) : string :=
  match p with
  | EmptyString => "."
  | String c _ =>
      let isAbsolute := bool_decide (c = slash) in
      let trailingSeparator := endsWithSlash p in
      let q := normalizeString p (negb isAbsolute) in
      match q with
      | EmptyString =>
          if isAbsolute then "/" else if trailingSeparator then "./" else "."
      | _ =>
          let q' := if trailingSeparator then q +:+ "/" else q in
          if isAbsolute then "/" +:+ q' else q'
      end
  end.

(** [path.join(...parts)] *)
Definition join (parts : list string) : string :=
  match filter (λ s, s ≠ "") parts with
  | [] => "."
  | ps => normalize (Js.join "/" ps)
  end.

(** The last component of a path, trailing slashes dropped; the two
    helpers read the reversed path. *)
Fixpoint drop_slashes (s : list ascii) : list ascii :=
  match s with
  | c :: s' => if decide (c = slash) then drop_slashes s' else s
  | [] => []
  end.

Fixpoint take_component (s : list ascii) : list ascii :=
  match s with
  | c :: s' => if decide (c = slash) then [] else c :: take_component s'
  | [] => []
  end.

Definition basename_chars (p : string) : list ascii :=
  rev (take_component (drop_slashes (rev (list_ascii_of_string p)))).

(** The part of a component from its last dot on, and what stands before. *)
Fixpoint split_last_dot (base : list ascii) : option (list ascii * list ascii) :=
  match base with
  | [] => None
  | c :: rest =>
      match split_last_dot rest with
      | Some (pre, ext) => Some (c :: pre, ext)
      | None => if decide (c = dot) then Some ([], c :: rest) else None
      end
  end.

(** [path.extname]: empty when the last component has no dot, has its last
    dot as first character, or is "..". *)
Definition extname (p : string) : string :=
  let base := basename_chars p in
  match split_last_dot base with
  | None => ""
  | Some (pre, ext) =>
      if decide (pre = [] ∨ base = [dot; dot]) then ""
      else string_of_list_ascii ext
  end.

(** [path.dirname] of a normalised absolute path. *)
Definition dirname (p : string) : string :=
  match rev (split "/" p) with
  | _ :: (_ :: _ :: _) as front => Js.join "/" (rev front)
  | _ => "/"
  end.

End Path.

(** ** Exceptions *)

Inductive Error :=
  | FsError (code : string)     (* a failed system call of [fs] *)
  | TypeError                   (* a method call on a value without it *)
  | CastError                   (* mongoose: a value against its schema type *)
  | ValidationError             (* mongoose: a document against the schema *)
  | MongoError.                 (* the server or the connection *)

(** ** The file system (node's [fs])

    A finite map from the normalised absolute paths that [path.join] yields
    to what is there: a regular file with its content, or a directory. *)

Module Fs.

Inductive Node := File (content : string) | Dir.

#[global] Instance Node_eq_dec : EqDecision Node.
Proof. solve_decision. Defined.

(** The entry a path names: a path with a trailing slash names its entry
    only when that entry is a directory. *)
Definition key (p : string) : string :=
  if Path.endsWithSlash p && negb (String.eqb p "/")
  then String.substring 0 (String.length p - 1) p
  else p.

Definition stat (fs : gmap string Node) (p : string) : option Node :=
  if Path.endsWithSlash p && negb (String.eqb p "/")
  then match fs !! key p with
       | Some Dir => Some Dir
       | _ => None
       end
  else fs !! p.

(** [fs.existsSync] *)
Definition existsSync (fs : gmap string Node) (p : string) : bool :=
  bool_decide (is_Some (stat fs p)).

(** [fs.unlinkSync]: removes a regular file. *)
Definition unlinkSync (fs : gmap string Node) (p : string)
  : Error + gmap string Node :=
  match stat fs p with
  | Some (File _) => inr (delete p fs)
  | Some Dir => inl (FsError "EISDIR")
  | None => inl (FsError "ENOENT")
  end.

(** [fs.renameSync]: the entry at [src] replaces what is at [dst].  The
    directory that is to hold [dst] must exist (ENOENT) and be a directory
    (ENOTDIR), and a file does not replace a directory nor a directory a
    file.  A directory moves as one entry. *)
Definition renameSync (fs : gmap string Node) (src dst : string)
  : Error + gmap string Node :=
  match stat fs src with
  | None => inl (FsError "ENOENT")
  | Some n =>
      match stat fs (Path.dirname (key dst)) with
      | Some Dir =>
          match n with
          | File _ =>
              if Path.endsWithSlash dst then inl (FsError "ENOTDIR")
              else match fs !! dst with
                   | Some Dir => inl (FsError "EISDIR")
                   | _ => inr (<[dst := n]> (delete src fs))
                   end
          | Dir =>
              match fs !! key dst with
              | Some (File _) => inl (FsError "ENOTDIR")
              | _ => inr (<[key dst := Dir]> (delete (key src) fs))
              end
          end
      | Some (File _) => inl (FsError "ENOTDIR")
      | None => inl (FsError "ENOENT")
      end
  end.

(** The directories on the way to a normalised absolute path, itself
    included, the nearest to the root first. *)
Fixpoint prefixes (above : string) (segments : list string) : list string :=
  match segments with
  | [] => []
  | seg :: rest =>
      let here := above +:+ "/" +:+ seg in here :: prefixes here rest
  end.

Definition ancestors (p : string) : list string :=
  prefixes "" (filter (λ seg, seg ≠ "") (split "/" p)).

Definition is_file (fs : gmap string Node) (p : string) : bool :=
  match fs !! p with
  | Some (File _) => true
  | _ => false
  end.

(** [fs.mkdirSync(dir, { recursive: true })]: makes the directory and those
    above it that are missing.  A regular file where the directory is to be
    is the error EEXIST, and one on the way to it the error ENOTDIR. *)
Definition mkdirSync (fs : gmap string Node) (dir : string)
  : Error + gmap string Node :=
  if from_option (is_file fs) false (last (ancestors dir))
  then inl (FsError "EEXIST")
  else if existsb (is_file fs) (ancestors dir) then inl (FsError "ENOTDIR")
  else inr (foldr (λ d acc, <[d := Dir]> acc) fs (ancestors dir)).

(** Writing a new file through [fs.createWriteStream(p)]: the file is made
    or replaced in an existing directory. *)
Definition createWriteStream (fs : gmap string Node) (p content : string)
  : Error + gmap string Node :=
  match stat fs (Path.dirname p) with
  | Some Dir =>
      if Path.endsWithSlash p then inl (FsError "EISDIR")
      else match fs !! p with
           | Some Dir => inl (FsError "EISDIR")
           | _ => inr (<[p := File content]> fs)
           end
  | Some (File _) => inl (FsError "ENOTDIR")
  | None => inl (FsError "ENOENT")
  end.

End Fs.

(** ** Regular expressions ([$regex] with [$options: 'i'])

    The pattern language of the database is PCRE.  The model covers the
    patterns made of literal characters, [.], a backslash before a
    punctuation character, one of the quantifiers [*], [+], [?] after an
    atom, and [|]; [compile] answers [Unsupported] on the others
    (groups, classes, anchors, braces, letter escapes, stacked quantifiers),
    which the server leaves to a parameter. *)

Module Regex.

Inductive Re :=
  | Empty                       (* matches nothing *)
  | Eps                         (* matches the empty string *)
  | Chr (c : ascii)             (* a character, caseless *)
  | Any                         (* [.]: a character other than a line feed *)
  | Seq (r1 r2 : Re)
  | Alt (r1 r2 : Re)
  | Star (r : Re).

Definition line_feed : ascii := ascii_of_N 10.

(** The strings that an expression matches. *)
Inductive matches : Re → list ascii → Prop :=
  | MEps : matches Eps []
  | MChr a c : lower a = lower c → matches (Chr a) [c]
  | MAny c : c ≠ line_feed → matches Any [c]
  | MSeq r1 r2 s1 s2 :
      matches r1 s1 → matches r2 s2 → matches (Seq r1 r2) (s1 ++ s2)%list
  | MAltL r1 r2 s : matches r1 s → matches (Alt r1 r2) s
  | MAltR r1 r2 s : matches r2 s → matches (Alt r1 r2) s
  | MStar0 r : matches (Star r) []
  | MStarS r s1 s2 :
      matches r s1 → matches (Star r) s2 → matches (Star r) (s1 ++ s2)%list.

Inductive Token :=
  | TChar (c : ascii) | TAny | TStar | TPlus | TQuest | TBar
  | TOther                      (* a construct outside the fragment *)
  | TTrail.                     (* a backslash that ends the pattern *)

Definition is_alnum (c : ascii) : bool :=
  let n := N_of_ascii c in
  ((48 <=? n) && (n <=? 57) || (65 <=? n) && (n <=? 90)
   || (97 <=? n) && (n <=? 122))%N.

(** The characters with a meaning of their own in a pattern. *)
Definition is_meta (c : ascii) : bool :=
  bool_decide (c ∈ list_ascii_of_string "\^$.[]|()?*+{}").

Definition token_of (c : ascii) : Token :=
  if Ascii.eqb c "." then TAny
  else if Ascii.eqb c "*" then TStar
  else if Ascii.eqb c "+" then TPlus
  else if Ascii.eqb c "?" then TQuest
  else if Ascii.eqb c "|" then TBar
  else if is_meta c then TOther
  else TChar c.

Fixpoint tokenize (s : string) : list Token :=
  match s with
  | EmptyString => []
  | String c rest =>
      if Ascii.eqb c "\" then
        match rest with
        | EmptyString => [TTrail]
        | String e rest' =>
            (if is_alnum e then TOther else TChar e) :: tokenize rest'
        end
      else token_of c :: tokenize rest
  end.

(** Where the parser stands in a branch: before any atom, after an atom,
    after a quantified atom. *)
Inductive QState := NoAtom | Fresh | Quantified.

Inductive Compiled := Ok (r : Re) | Invalid | Unsupported.

Definition seq_of (items : list Re) : Re := foldr Seq Eps items.

Definition alt_of (branches : list Re) : Re :=
  match branches with
  | [] => Empty
  | b :: bs => foldl Alt b bs
  end.

Definition quantify (t : Token) (r : Re) : Re :=
  match t with
  | TStar => Star r
  | TPlus => Seq r (Star r)
  | _ => Alt r Eps
  end.

(** [alts] holds the finished branches and [items] the atoms of the branch
    being read, both last first. *)
Fixpoint parse (alts items : list Re) (q : QState) (ts : list Token)
  : Compiled :=
  match ts with
  | [] => Ok (alt_of (rev (seq_of (rev items) :: alts)))
  | t :: ts' =>
      match t with
      | TChar c => parse alts (Chr c :: items) Fresh ts'
      | TAny => parse alts (Any :: items) Fresh ts'
      | TBar => parse (seq_of (rev items) :: alts) [] NoAtom ts'
      | TStar | TPlus | TQuest =>
          match q, items with
          | Fresh, a :: items' => parse alts (quantify t a :: items') Quantified ts'
          | Quantified, _ => Unsupported
          | _, _ => Invalid
          end
      | TOther => Unsupported
      | TTrail => Invalid
      end
  end.

Definition is_other (t : Token) : bool :=
  match t with
  | TOther => true
  | _ => false
  end.

Definition compile (pattern : string) : Compiled :=
  let ts := tokenize pattern in
  if existsb is_other ts then Unsupported else parse [] [] NoAtom ts.

(** Matching by derivatives: [nullable r] tells whether [r] matches the
    empty string, and [deriv c r] matches what [r] matches after a [c]. *)
Fixpoint nullable (r : Re) : bool :=
  match r with
  | Empty | Chr _ | Any => false
  | Eps | Star _ => true
  | Seq r1 r2 => nullable r1 && nullable r2
  | Alt r1 r2 => nullable r1 || nullable r2
  end.

Definition sSeq (r1 r2 : Re) : Re :=
  match r1 with
  | Empty => Empty
  | Eps => r2
  | _ => Seq r1 r2
  end.

Definition sAlt (r1 r2 : Re) : Re :=
  match r1, r2 with
  | Empty, _ => r2
  | _, Empty => r1
  | _, _ => Alt r1 r2
  end.

Fixpoint deriv (c : ascii) (r : Re) : Re :=
  match r with
  | Empty | Eps => Empty
  | Chr a => if Ascii.eqb (lower a) (lower c) then Eps else Empty
  | Any => if Ascii.eqb c line_feed then Empty else Eps
  | Seq r1 r2 =>
      sAlt (sSeq (deriv c r1) r2) (if nullable r1 then deriv c r2 else Empty)
  | Alt r1 r2 => sAlt (deriv c r1) (deriv c r2)
  | Star r1 => sSeq (deriv c r1) (Star r1)
  end.

(** Some prefix of [s] matches [r]. *)
Fixpoint matches_prefix (r : Re) (s : string) : bool :=
  nullable r ||
  match s with
  | String c s' => matches_prefix (deriv c r) s'
  | EmptyString => false
  end.

(** Some substring of [s] matches [r]: the unanchored search of [$regex]. *)
Fixpoint test (r : Re) (s : string) : bool :=
  matches_prefix r s ||
  match s with
  | String _ s' => test r s'
  | EmptyString => false
  end.

(** A pattern without any character that has a meaning of its own. *)
Fixpoint is_literal (s : string) : bool :=
  match s with
  | EmptyString => true
  | String c s' => negb (is_meta c) && is_literal s'
  end.

End Regex.

(** [name] contains [x] as a substring, case folded. *)
Definition contains_ci (x name : string) : bool :=
  includes (toLowerCase x) (toLowerCase name).

(** ** The collection (the mongoose model [pokemon]) *)

(** The six base statistics, over the type of one statistic. *)
Record Stats (A : Type) := mkStats {
  HP : A; Attack : A; Defense : A;
  SpecialAttack : A; SpecialDefense : A; Speed : A
}.
Arguments mkStats {A}.
Arguments HP {A}.
Arguments Attack {A}.
Arguments Defense {A}.
Arguments SpecialAttack {A}.
Arguments SpecialDefense {A}.
Arguments Speed {A}.


Module pokemon.

(** Modelled from the spec: the schema module ./schema/pokemon.js is not
    among the sources.  By the data model of the specification a stored
    record has an integer [id], a required string [name.french], a sequence
    of strings [type], six integer statistics under [base] and a string
    [image]. *)
Record Doc := mkDoc {
  id : Z;
  name_french : string;
  type : list string;
  base : Stats Z;
  image : string
}.

(** The object [newPokemonData] that POST assembles, before any cast. *)
Record NewPokemonData := mkData {
  d_id : Z;
  d_name_french : option FormValue;
  d_type : FormValue;
  d_base : Stats JsNum;
  d_image : string
}.

(** The object [updates] that PUT assembles: a field is [None] when the key
    was not set. *)
Record Updates := mkUpdates {
  u_name_french : option FormValue;
  u_base : Stats (option JsNum);
  u_type : option FormValue;
  u_image : option string
}.

(** Modelled from the spec: the casts of the schema types.  A Number path
    refuses NaN; a String path takes a string and refuses arrays and
    objects; an array-of-String path takes an array of strings. *)
Definition castNumber (n : JsNum) : Error + Z :=
  match n with
  | Int z => inr z
  | NaN => inl CastError
  end.

Definition castString (v : FormValue) : Error + string :=
  match v with
  | FStr s => inr s
  | _ => inl CastError
  end.

Fixpoint castStrings (l : list FormValue) : Error + list string :=
  match l with
  | [] => inr []
  | v :: l' =>
      match castString v, castStrings l' with
      | inr s, inr ss => inr (s :: ss)
      | inl e, _ | _, inl e => inl e
      end
  end.

Definition castStringArray (v : FormValue) : Error + list string :=
  match v with
  | FArr l => castStrings l
  | _ => inl CastError
  end.

Definition castStats (b : Stats JsNum) : Error + Stats Z :=
  match castNumber (HP b), castNumber (Attack b), castNumber (Defense b),
        castNumber (SpecialAttack b), castNumber (SpecialDefense b),
        castNumber (Speed b) with
  | inr h, inr a, inr d, inr sa, inr sd, inr sp => inr (mkStats h a d sa sd sp)
  | _, _, _, _, _, _ => inl CastError
  end.

(** Modelled from the spec: validation of a new document.  [name.french]
    is required (an empty string does not satisfy a required String path);
    a failed cast is a validation failure. *)
Definition validate (d : NewPokemonData) : Error + Doc :=
  match d_name_french d with
  | None | Some (FStr EmptyString) => inl ValidationError
  | Some v =>
      match castString v, castStringArray (d_type d), castStats (d_base d) with
      | inr n, inr t, inr b => inr (mkDoc (d_id d) n t b (d_image d))
      | _, _, _ => inl ValidationError
      end
  end.

(** The update [{ $set: updates }] once cast against the schema. *)
Record CastUpdates := mkCast {
  c_name_french : option string;
  c_base : Stats (option Z);
  c_type : option (list string);
  c_image : option string
}.

Definition cast_opt {A B} (f : A → Error + B) (o : option A)
  : Error + option B :=
  match o with
  | None => inr None
  | Some a => match f a with
              | inr b => inr (Some b)
              | inl e => inl e
              end
  end.

Definition castUpdate (u : Updates) : Error + CastUpdates :=
  let b := u_base u in
  match cast_opt castString (u_name_french u),
        cast_opt castNumber (HP b), cast_opt castNumber (Attack b),
        cast_opt castNumber (Defense b), cast_opt castNumber (SpecialAttack b),
        cast_opt castNumber (SpecialDefense b), cast_opt castNumber (Speed b),
        cast_opt castStringArray (u_type u) with
  | inr n, inr h, inr a, inr d, inr sa, inr sd, inr sp, inr t =>
      inr (mkCast n (mkStats h a d sa sd sp) t (u_image u))
  | _, _, _, _, _, _, _, _ => inl CastError
  end.

(** [$set]: a path that is set takes its new value, the others keep
    theirs. *)
Definition set_stats (c : Stats (option Z)) (b : Stats Z) : Stats Z :=
  mkStats (default (HP b) (HP c)) (default (Attack b) (Attack c))
          (default (Defense b) (Defense c))
          (default (SpecialAttack b) (SpecialAttack c))
          (default (SpecialDefense b) (SpecialDefense c))
          (default (Speed b) (Speed c)).

Definition apply_set (c : CastUpdates) (p : Doc) : Doc :=
  mkDoc (id p)
        (default (name_french p) (c_name_french c))
        (default (type p) (c_type c))
        (set_stats (c_base c) (base p))
        (default (image p) (c_image c)).

(** The operations of the model on the documents of the collection, in
    their natural order. *)

(** [pokemon.find({}).skip(skip).limit(limit)] *)
Definition find_skip_limit (docs : list Doc) (skip limit : Z)
  : Error + list Doc :=
  if skip <? 0 then inl MongoError
  else inr (take (Z.to_nat limit) (drop (Z.to_nat skip) docs)).

(** [pokemon.countDocuments()] *)
Definition countDocuments (docs : list Doc) : Z := Z.of_nat (List.length docs).

(** [pokemon.findOne({ id: pokeId })] *)
Definition findOne (docs : list Doc) (pokeId : JsNum) : Error + option Doc :=
  match castNumber pokeId with
  | inr z => inr (list_find (λ p, id p = z) docs ≫= λ ip, Some ip.2)
  | inl e => inl e
  end.

(** [pokemon.findOne().sort({ id: -1 })]: a document of greatest [id]. *)
Fixpoint findOne_sort_id_desc (docs : list Doc) : option Doc :=
  match docs with
  | [] => None
  | p :: rest =>
      match findOne_sort_id_desc rest with
      | Some q => if id p <? id q then Some q else Some p
      | None => Some p
      end
  end.

(** [new pokemon(data).save()] *)
Definition save (docs : list Doc) (d : NewPokemonData)
  : Error + (Doc * list Doc) :=
  match validate d with
  | inr p => inr (p, (docs ++ [p])%list)
  | inl e => inl e
  end.

Fixpoint delete_first (z : Z) (docs : list Doc) : list Doc :=
  match docs with
  | [] => []
  | p :: rest => if decide (id p = z) then rest else p :: delete_first z rest
  end.

(** [pokemon.findOneAndDelete({ id: pokeId })] *)
Definition findOneAndDelete (docs : list Doc) (pokeId : JsNum)
  : Error + list Doc :=
  match castNumber pokeId with
  | inr z => inr (delete_first z docs)
  | inl e => inl e
  end.

Fixpoint update_first (z : Z) (c : CastUpdates) (docs : list Doc)
  : option Doc * list Doc :=
  match docs with
  | [] => (None, [])
  | p :: rest =>
      if decide (id p = z) then (Some (apply_set c p), apply_set c p :: rest)
      else let '(r, rest') := update_first z c rest in (r, p :: rest')
  end.

(** [pokemon.findOneAndUpdate({ id: pokeId }, { $set: updates },
    { new: true })] *)
Definition findOneAndUpdate (docs : list Doc) (pokeId : JsNum) (u : Updates)
  : Error + (option Doc * list Doc) :=
  match castNumber pokeId, castUpdate u with
  | inr z, inr c => inr (update_first z c docs)
  | inl e, _ | _, inl e => inl e
  end.

End pokemon.

(** ** The world of a request, and computations on it *)

Record World := mkWorld {
  docs : list pokemon.Doc;        (* the collection *)
  connected : bool;               (* whether the database answers *)
  files : gmap string Fs.Node     (* the file system *)
}.

(** A computation may change the world and either returns or throws; what
    it changed before throwing stays changed. *)
Definition Eff (A : Type) : Type := World → (Error + A) * World.

#[global] Instance Eff_ret : MRet Eff := λ A a w, (inr a, w).
#[global] Instance Eff_bind : MBind Eff := λ A B f m w,
  match m w with
  | (inr a, w') => f a w'
  | (inl e, w') => (inl e, w')
  end.

Definition throw {A} (e : Error) : Eff A := λ w, (inl e, w).

Definition lift {A} (r : Error + A) : Eff A := λ w, (r, w).

(** A query: it is rejected when the database does not answer. *)
Definition query {A} (f : list pokemon.Doc → Error + A) : Eff A := λ w,
  if connected w then (f (docs w), w) else (inl MongoError, w).

(** A command: a query that also leaves a new collection. *)
Definition command {A} (f : list pokemon.Doc → Error + (A * list pokemon.Doc))
  : Eff A := λ w,
  if connected w then
    match f (docs w) with
    | inr (a, docs') => (inr a, mkWorld docs' (connected w) (files w))
    | inl e => (inl e, w)
    end
  else (inl MongoError, w).

Definition existsSync (p : string) : Eff bool := λ w,
  (inr (Fs.existsSync (files w) p), w).

Definition fs_call (f : gmap string Fs.Node → Error + gmap string Fs.Node)
  : Eff () := λ w,
  match f (files w) with
  | inr fs' => (inr (), mkWorld (docs w) (connected w) fs')
  | inl e => (inl e, w)
  end.

Definition unlinkSync (p : string) : Eff () :=
  fs_call (λ fs, Fs.unlinkSync fs p).

Definition renameSync (src dst : string) : Eff () :=
  fs_call (λ fs, Fs.renameSync fs src dst).

(** ** Requests and responses *)

(** [req.file], as multer sets it. *)
Record UploadedFile := mkFile {
  originalname : string;
  path : string
}.

Inductive Body :=
  | JDoc (p : pokemon.Doc)
  | JDocs (l : list pokemon.Doc)
  | JPage (page : JsNum) (totalPages : Z) (data : list pokemon.Doc)
  | JError (error : string)
  | JMessage (message : string).

Record Response := mkResponse { status : Z; body : Body }.

(** What a request leaves: a response; an error that no handler of the
    application answers (an exception that escaped an [async] handler, or an
    error that a middleware handed to Express); or an exception thrown where
    nothing catches it, which ends the process. *)
Inductive Outcome :=
  | Sent (r : Response)
  | Unhandled (e : Error)
  | Crashed (e : Error).

(** [error.message]: the text stands for the one of the library. *)
Definition message (e : Error) : string :=
  match e with
  | FsError code => code
  | TypeError => "TypeError"
  | CastError => "CastError"
  | ValidationError => "ValidationError"
  | MongoError => "MongoError"
  end.

(** [try { body } catch (error) { handler }] around a handler. *)
Definition try_catch (body : Eff Response) (handler : Error → Eff Response)
  : World → Outcome * World := λ w,
  match body w with
  | (inr r, w') => (Sent r, w')
  | (inl e, w') =>
      match handler e w' with
      | (inr r, w'') => (Sent r, w'')
      | (inl e', w'') => (Unhandled e', w'')
      end
  end.

(** [parseInt(v)] on a value that may be [undefined]. *)
Definition parseInt (objstr : option string) (v : option FormValue)
  (radix : option Z) : Error + JsNum :=
  match v with
  | None => inr (parseInt_string "undefined" radix)
  | Some v =>
      match toString objstr v with
      | Some s => inr (parseInt_string s radix)
      | None => inl TypeError
      end
  end.

(** How ToString reads an object of [req.query] and one of a multer body. *)
Definition query_object : option string := Some "[object Object]".
Definition body_object : option string := None.

(** ** The handlers of index.js *)

Section Server.

(** The directory of index.js. *)
Variable __dirname : string.

(** What the regular expression engine of the database does with a pattern
    outside the fragment of [Regex]: it refuses it ([None]) or gives the
    names that match. *)
Variable pcre : string → option (string → bool).

Definition name_matches (query : string) : Error + (string → bool) :=
  match Regex.compile query with
  | Regex.Ok r => inr (Regex.test r)
  | Regex.Invalid => inl MongoError
  | Regex.Unsupported =>
      match pcre query with
      | Some f => inr f
      | None => inl MongoError
      end
  end.

(** [pokemon.find({ 'name.french': { $regex: query, $options: 'i' } })] *)
Definition find_regex (query : string) (docs : list pokemon.Doc)
  : Error + list pokemon.Doc :=
  match name_matches query with
  | inr f => inr (filter (λ p, f (pokemon.name_french p) = true) docs)
  | inl e => inl e
  end.

Definition assets : string := "assets/pokemons".
Definition base_url : string := "http://localhost:3000/assets/pokemons/".
Definition default_image : string :=
  "http://localhost:3000/assets/pokemons/default.png".
Definition server_error : Response := mkResponse 500 (JError "Erreur serveur").

(** [n || d] for a number [n] and a non-zero default [d]. *)
Definition num_or (n : JsNum) (d : Z) : Z :=
  match n with
  | Int z => if z =? 0 then d else z
  | NaN => d
  end.

(** [Math.ceil(a / b)] for a positive [b]. *)
Definition ceil_div (a b : Z) : Z := - ((- a) / b).

(** GET /pokemons *)
Definition get_pokemons (page_param : option FormValue)
  : World → Outcome * World :=
  try_catch
    (n ← lift (parseInt query_object page_param None);
     let page := num_or n 1 in
     let limit := 20 in
     let skip := (page - 1) * limit in
     pokemons ← query (λ d, pokemon.find_skip_limit d skip limit);
     total ← query (λ d, inr (pokemon.countDocuments d));
     mret (mkResponse 200 (JPage (Int page) (ceil_div total limit) pokemons)))
    (λ error, mret server_error).

(** GET /pokemons/search.  Only a string has the method [trim]. *)
Definition get_pokemons_search (q : option FormValue)
  : World → Outcome * World :=
  try_catch
    (match js_or q (Some (FStr "")) with
     | Some (FStr query_) =>
         if bool_decide (trim query_ = "")
         then mret (mkResponse 200 (JDocs []))
         else
           pokemons ← query (find_regex query_);
           mret (mkResponse 200 (JDocs pokemons))
     | _ => throw TypeError
     end)
    (λ error, mret server_error).

(** GET /pokemons/:id *)
Definition get_pokemon (id_param : string) : World → Outcome * World :=
  try_catch
    (let pokeId := parseInt_string id_param (Some 10) in
     poke ← query (λ d, pokemon.findOne d pokeId);
     match poke with
     | Some p => mret (mkResponse 200 (JDoc p))
     | None => mret (mkResponse 404 (JError "Non trouvé"))
     end)
    (λ error, mret server_error).

(** [parseInt(raw[k] || 0)] *)
Definition stat_field (raw : gmap string FormValue) (k : string)
  : Error + JsNum :=
  if truthy (raw !! k) then parseInt body_object (raw !! k) None
  else inr (parseInt_string (num_toString (Int 0)) None).

(** [typeof v === 'string' ? v.split(',').map(t => t.trim()) : v] *)
Definition split_types (v : FormValue) : FormValue :=
  match v with
  | FStr s => FArr ((λ t, FStr (trim t)) <$> split "," s)
  | _ => v
  end.

(** The fields of [newPokemonData] that POST reads from the body. *)
Definition read_name (raw : gmap string FormValue) : option FormValue :=
  js_or (js_or (raw !! "name.french") (raw !! "name" ≫= get_prop "french"))
        (raw !! "name").

Definition read_type (raw : gmap string FormValue) : FormValue :=
  match raw !! "type" with
  | Some (FStr s) => split_types (FStr s)
  | v => if truthy v then default (FArr []) v else FArr []
  end.

Definition read_base (raw : gmap string FormValue) : Error + Stats JsNum :=
  match stat_field raw "base.HP", stat_field raw "base.Attack",
        stat_field raw "base.Defense", stat_field raw "base.SpecialAttack",
        stat_field raw "base.SpecialDefense", stat_field raw "base.Speed" with
  | inr h, inr a, inr d, inr sa, inr sd, inr sp => inr (mkStats h a d sa sd sp)
  | inl e, _, _, _, _, _ | _, inl e, _, _, _, _ | _, _, inl e, _, _, _
  | _, _, _, inl e, _, _ | _, _, _, _, inl e, _ | _, _, _, _, _, inl e => inl e
  end.

(** The path and the public URL of the image of record [name], a number
    as a template literal prints it, with extension [extension]. *)
Definition finalName (name : JsNum) (extension : string) : string :=
  num_toString name +:+ extension.

Definition finalPath (name : JsNum) (extension : string) : string :=
  Path.join [__dirname; assets; finalName name extension].

(** The file part of a multipart request: the name the client gave and the
    bytes. *)
Record FilePart := mkPart {
  part_name : string;
  part_content : string
}.

(** [multer.diskStorage]: the callback [destination]. *)
Definition destination : Eff string :=
  let dir := Path.join [__dirname; assets] in
  there ← existsSync dir;
  (if there : bool then mret ()
   else fs_call (λ fs, Fs.mkdirSync fs dir));;
  mret dir.

(** [multer.diskStorage]: the callback [filename], at time [now]. *)
Definition filename (now : Z) (originalname : string) : string :=
  "temp_" +:+ num_toString (Int now) +:+ Path.extname originalname.

(** What [upload.single('image')] leaves to the route: [req.file] for the
    handler; an error of the write stream, which multer hands to Express;
    or an exception of the callback [destination], which is called where
    nothing catches it. *)
Inductive Upload :=
  | Stored (file : option UploadedFile)
  | Refused (e : Error)
  | Thrown (e : Error).

(** [upload.single('image')]: multer passes over a file part whose filename
    is empty; it writes another one under
    [path.join(destination, filename)] and describes it in [req.file]. *)
Definition upload_single (now : Z) (part : option FilePart)
  : World → Upload * World := λ w,
  match part with
  | Some f =>
      if bool_decide (part_name f = "") then (Stored None, w)
      else
        match destination w with
        | (inl e, w1) => (Thrown e, w1)
        | (inr dir, w1) =>
            let p := Path.join [dir; filename now (part_name f)] in
            match fs_call (λ fs, Fs.createWriteStream fs p (part_content f))
                    w1 with
            | (inl e, w2) => (Refused e, w2)
            | (inr _, w2) => (Stored (Some (mkFile (part_name f) p)), w2)
            end
        end
  | None => (Stored None, w)
  end.

(** A route with [upload.single('image')] before its handler. *)
Definition with_upload (now : Z) (part : option FilePart)
  (handler : option UploadedFile → World → Outcome * World)
  : World → Outcome * World := λ w,
  match upload_single now part w with
  | (Stored file, w1) => handler file w1
  | (Refused e, w1) => (Unhandled e, w1)
  | (Thrown e, w1) => (Crashed e, w1)
  end.

(** The [catch] of POST and PUT: the uploaded file is removed if it is
    still where multer put it, then the error is answered with [code]. *)
Definition cleanup (file : option UploadedFile) : Eff () :=
  match file with
  | Some f =>
      there ← existsSync (path f);
      if there : bool then unlinkSync (path f) else mret ()
  | None => mret ()
  end.

Definition upload_catch (code : Z) (file : option UploadedFile)
  (error : Error) : Eff Response :=
  cleanup file;;
  mret (mkResponse code (JError (message error))).

(** [lastPokemon ? lastPokemon.id + 1 : 1] *)
Definition assigned_id (lastPokemon : option pokemon.Doc) : Z :=
  match lastPokemon with
  | Some p => add (pokemon.id p) 1
  | None => 1
  end.

(** POST /pokemons: the [try] block, and the handler. *)
Definition post_try (raw : gmap string FormValue)
  (file : option UploadedFile) : Eff Response :=
  let name := read_name raw in
  let type := read_type raw in
  base ← lift (read_base raw);
  lastPokemon ← query (λ d, inr (pokemon.findOne_sort_id_desc d));
  let id := assigned_id lastPokemon in
  image ← match file with
          | Some f =>
              let extension := Path.extname (originalname f) in
              renameSync (path f) (finalPath (Int id) extension);;
              mret (base_url +:+ finalName (Int id) extension)
          | None => mret default_image
          end;
  savedPokemon ← command (λ d,
    pokemon.save d (pokemon.mkData id name type base image));
  mret (mkResponse 201 (JDoc savedPokemon)).

Definition post_pokemons (raw : gmap string FormValue)
  (file : option UploadedFile) : World → Outcome * World :=
  try_catch (post_try raw file) (upload_catch 400 file).

(** The file that an image URL names in the assets directory:
    [p.image.split('/assets/pokemons/')[1]]. *)
Definition image_filename (image : string) : option string :=
  split "/assets/pokemons/" image !! 1%nat.

(** DELETE /pokemons/:id *)
Definition delete_pokemon (id_param : string) : World → Outcome * World :=
  try_catch
    (let pokeId := parseInt_string id_param (Some 10) in
     found ← query (λ d, pokemon.findOne d pokeId);
     match found with
     | None => mret (mkResponse 404 (JError "Introuvable"))
     | Some p =>
         (if negb (String.eqb (pokemon.image p) "")
             && includes "/assets/pokemons/" (pokemon.image p)
          then
            match image_filename (pokemon.image p) with
            | Some filename =>
                let filePath := Path.join [__dirname; assets; filename] in
                there ← existsSync filePath;
                if there : bool then unlinkSync filePath else mret ()
            | None => throw TypeError
            end
          else mret ());;
         command (λ d,
           match pokemon.findOneAndDelete d pokeId with
           | inr d' => inr ((), d')
           | inl e => inl e
           end);;
         mret (mkResponse 200 (JMessage "Supprimé avec succès"))
     end)
    (λ error, mret server_error).

(** [if (raw[k]) updates[k] = parseInt(raw[k])] *)
Definition stat_update (raw : gmap string FormValue) (k : string)
  : Error + option JsNum :=
  if truthy (raw !! k) then
    match parseInt body_object (raw !! k) None with
    | inr n => inr (Some n)
    | inl e => inl e
    end
  else inr None.

Definition base_updates (raw : gmap string FormValue)
  : Error + Stats (option JsNum) :=
  match stat_update raw "base.HP", stat_update raw "base.Attack",
        stat_update raw "base.Defense", stat_update raw "base.SpecialAttack",
        stat_update raw "base.SpecialDefense", stat_update raw "base.Speed" with
  | inr h, inr a, inr d, inr sa, inr sd, inr sp => inr (mkStats h a d sa sd sp)
  | inl e, _, _, _, _, _ | _, inl e, _, _, _, _ | _, _, inl e, _, _, _
  | _, _, _, inl e, _, _ | _, _, _, _, inl e, _ | _, _, _, _, _, inl e => inl e
  end.

(** PUT /pokemons/:id: the [try] block, and the handler. *)
Definition put_try (id_param : string) (raw : gmap string FormValue)
  (file : option UploadedFile) : Eff Response :=
  let pokeId := parseInt_string id_param (Some 10) in
  let name := if truthy (raw !! "name.french") then raw !! "name.french"
              else None in
  base ← lift (base_updates raw);
  let type := if truthy (raw !! "type") then split_types <$> raw !! "type"
              else None in
  image ← match file with
          | Some f =>
              let extension := Path.extname (originalname f) in
              renameSync (path f) (finalPath pokeId extension);;
              mret (Some (base_url +:+ finalName pokeId extension))
          | None => mret None
          end;
  updated ← command (λ d,
    pokemon.findOneAndUpdate d pokeId
      (pokemon.mkUpdates name base type image));
  match updated with
  | Some p => mret (mkResponse 200 (JDoc p))
  | None => mret (mkResponse 404 (JError "Introuvable"))
  end.

Definition put_pokemon (id_param : string) (raw : gmap string FormValue)
  (file : option UploadedFile) : World → Outcome * World :=
  try_catch (put_try id_param raw file) (upload_catch 500 file).

(** The two routes that take an upload:
    [app.post('/pokemons', upload.single('image'), ...)] and
    [app.put('/pokemons/:id', upload.single('image'), ...)]. *)
Definition route_post (now : Z) (part : option FilePart)
  (raw : gmap string FormValue) : World → Outcome * World :=
  with_upload now part (post_pokemons raw).

Definition route_put (now : Z) (part : option FilePart) (id_param : string)
  (raw : gmap string FormValue) : World → Outcome * World :=
  with_upload now part (put_pokemon id_param raw).

End Server.

(** ** Vocabulary of the properties *)

(** A body whose only recognised field is [base.HP]. *)
Definition only_HP (raw : gmap string FormValue) : Prop :=
  raw !! "name.french" = None ∧ raw !! "type" = None ∧
  raw !! "base.Attack" = None ∧ raw !! "base.Defense" = None ∧
  raw !! "base.SpecialAttack" = None ∧ raw !! "base.SpecialDefense" = None ∧
  raw !! "base.Speed" = None.

(** [p'] is [p] but for its HP. *)
Definition same_but_HP (p p' : pokemon.Doc) : Prop :=
  pokemon.id p' = pokemon.id p ∧
  pokemon.name_french p' = pokemon.name_french p ∧
  pokemon.type p' = pokemon.type p ∧
  pokemon.image p' = pokemon.image p ∧
  Attack (pokemon.base p') = Attack (pokemon.base p) ∧
  Defense (pokemon.base p') = Defense (pokemon.base p) ∧
  SpecialAttack (pokemon.base p') = SpecialAttack (pokemon.base p) ∧
  SpecialDefense (pokemon.base p') = SpecialDefense (pokemon.base p) ∧
  Speed (pokemon.base p') = Speed (pokemon.base p).

(** [p] with its HP set to [hp]. *)
Definition with_HP (hp : Z) (p : pokemon.Doc) : pokemon.Doc :=
  let b := pokemon.base p in
  pokemon.mkDoc (pokemon.id p) (pokemon.name_french p) (pokemon.type p)
    (mkStats hp (Attack b) (Defense b) (SpecialAttack b) (SpecialDefense b)
             (Speed b))
    (pokemon.image p).

(** ** Sample worlds *)

Definition app_dir : string := "/srv/app".

(** An engine that refuses every pattern outside the fragment. *)
Definition no_pcre : string → option (string → bool) := λ _, None.

Definition sample_doc (i : Z) (name : string) : pokemon.Doc :=
  pokemon.mkDoc i name ["Electrik"] (mkStats 35 55 40 50 50 90) default_image.

Definition temp_path : string := "/srv/app/assets/pokemons/temp_1700000000000.png".

Definition sample_upload : UploadedFile := mkFile "mew.png" temp_path.

Definition sample_files : gmap string Fs.Node :=
  {[ "/srv/app/assets/pokemons" := Fs.Dir;
     "/srv/app/assets/pokemons/default.png" := Fs.File "placeholder";
     temp_path := Fs.File "upload" ]}.

Definition sample_world : World :=
  mkWorld [sample_doc 1 "Bulbizarre"; sample_doc 2 "Herbizarre";
           sample_doc 25 "Pikachu"] true sample_files.

Definition world25 : World :=
  mkWorld ((λ i, sample_doc (Z.of_nat i) "Pikachu") <$> seq 1 25) true ∅.

Definition mew_fields : gmap string FormValue :=
  {[ "name.french" := FStr "Mew"; "type" := FStr "Psy";
     "base.HP" := FStr "100" ]}.

Definition mew (image : string) : pokemon.Doc :=
  pokemon.mkDoc 26 "Mew" ["Psy"] (mkStats 100 0 0 0 0 0) image.

Definition mew_image : string := "http://localhost:3000/assets/pokemons/26.png".

Definition mew_path : string := "/srv/app/assets/pokemons/26.png".

(** The files once the sample upload has become the image of record 26. *)
Definition files_with_mew : gmap string Fs.Node :=
  <[mew_path := Fs.File "upload"]> (delete temp_path sample_files).


Definition mew_unparsable : gmap string FormValue :=
  {[ "name.french" := FStr "Mew"; "type" := FStr "Psy";
     "base.HP" := FStr "abc" ]}.




Definition hp_fifty : gmap string FormValue := {[ "base.HP" := FStr "50" ]}.

(** The files once the sample upload has been renamed for identity 99. *)
Definition files_with_99 : gmap string Fs.Node :=
  <["/srv/app/assets/pokemons/99.png" := Fs.File "upload"]>
    (delete temp_path sample_files).

(** The files once the placeholder image is gone. *)
Definition files_without_default : gmap string Fs.Node :=
  delete "/srv/app/assets/pokemons/default.png" sample_files.

(** The sample world before the sample upload arrives, and the upload as
    the request carries it. *)
Definition quiet_world : World :=
  mkWorld (docs sample_world) true (delete temp_path sample_files).

Definition sample_part : FilePart := mkPart "mew.png" "upload".

Definition sample_now : Z := 1700000000000.

(** The sample world once Mew has been created with the sample upload. *)
Definition world_with_mew : World :=
  mkWorld (docs sample_world ++ [mew mew_image])%list true files_with_mew.

(** A record whose image is kept on another server. *)
Definition remote_doc : pokemon.Doc :=
  pokemon.mkDoc 7 "Carapuce" ["Eau"] (mkStats 44 48 65 50 64 43)
    "https://img.example.org/sprites/7.png".

(** A body whose name comes nested, as a bracketed key gives it, and whose
    types come in one string. *)
Definition nested_fields : gmap string FormValue :=
  {[ "name" := FObj {[ "french" := FStr "Mewtwo" ]};
     "type" := FStr " Psy , Vol" ]}.

Definition mewtwo : pokemon.Doc :=
  pokemon.mkDoc 26 "Mewtwo" ["Psy"; "Vol"] (mkStats 0 0 0 0 0 0) default_image.



(** A collection whose greatest identity is 2^53, the first integer whose
    successor is not a double. *)
Definition far_doc : pokemon.Doc := sample_doc 9007199254740992 "Mewtwo".

Definition far_world : World :=
  mkWorld [sample_doc 1 "Bulbizarre"; far_doc] true sample_files.

(** * Properties *)

(** ** Reading numbers *)

(** A value of a query string always converts to a string. *)
Fixpoint toString_query (o : string) (v : FormValue)
  : is_Some (toString (Some o) v).
Proof.
  destruct v as [s | l | m]; simpl; [eauto | | eauto].
  assert (H : is_Some (mapM (toString (Some o)) l)).
  { induction l as [| v l IH]; simpl; [eauto |].
    destruct (toString_query o v) as [s ->].
    destruct IH as [ss ->]. simpl. eauto. }
  destruct H as [ss ->]. simpl. eauto.
Qed.

Lemma parseInt_query_total (v : option FormValue) (radix : option Z) :
  ∃ n, parseInt query_object v radix = inr n.
Proof.
  destruct v as [v |]; simpl; [| eauto].
  destruct (toString_query "[object Object]" v) as [s Hs].
  unfold query_object. rewrite Hs. eauto.
Qed.

(** ** Rounding to a double *)

Lemma to_double_exact (z : Z) :
  Z.abs z ≤ 9007199254740992 → to_double z = z.
Proof.
  intros H. unfold to_double.
  destruct (Z.abs z <=? 9007199254740992) eqn:E; [reflexivity | lia].
Qed.

Lemma add_one_safe (m : Z) : safe m → add m 1 = m + 1.
Proof.
  unfold safe, MAX_SAFE_INTEGER, add. intros H. apply to_double_exact. lia.
Qed.

(** The significand of an integer beyond 2^53. *)
Lemma significand_bounds (a : Z) :
  9007199254740992 < a →
  let ulp := 2 ^ (Z.log2 a - 52) in
  1 ≤ Z.log2 a - 52 ∧ 0 < ulp ∧
  4503599627370496 * ulp ≤ a ∧ a < 9007199254740992 * ulp.
Proof.
  intros Ha ulp.
  assert (Hlog : 53 ≤ Z.log2 a).
  { change 53 with (Z.log2 9007199254740992). apply Z.log2_le_mono. lia. }
  destruct (Z.log2_spec a ltac:(lia)) as [Hlo Hhi].
  assert (Hulp : 0 < ulp) by (apply Z.pow_pos_nonneg; lia).
  assert (H52 : 2 ^ Z.log2 a = 4503599627370496 * ulp).
  { replace (Z.log2 a) with (52 + (Z.log2 a - 52)) at 1 by lia.
    rewrite Z.pow_add_r by lia. reflexivity. }
  assert (H53 : 2 ^ Z.succ (Z.log2 a) = 9007199254740992 * ulp).
  { replace (Z.succ (Z.log2 a)) with (53 + (Z.log2 a - 52)) by lia.
    rewrite Z.pow_add_r by lia. reflexivity. }
  lia.
Qed.

Lemma to_double_is_double (z : Z) : is_double (to_double z).
Proof.
  unfold to_double.
  destruct (Z.abs z <=? 9007199254740992) eqn:E.
  - exists z, 0. rewrite Z.mul_1_r. split; [lia |]. split; [lia | reflexivity].
  - apply Z.leb_gt in E.
    destruct (significand_bounds (Z.abs z) E) as (He & Hulp & Hlo & Hhi).
    cbv zeta. set (ulp := 2 ^ (Z.log2 (Z.abs z) - 52)) in *.
    set (q := Z.abs z / ulp).
    assert (Hq : 0 ≤ q < 9007199254740992).
    { split; [apply Z.div_pos; lia |].
      apply Z.div_lt_upper_bound; lia. }
    match goal with |- is_double (_ * (?t * _)) => set (q' := t) end.
    assert (Hq' : 0 ≤ q' ≤ 9007199254740992)
      by (subst q'; destruct (_ || _); lia).
    exists (Z.sgn z * q'), (Z.log2 (Z.abs z) - 52).
    split; [lia |]. split; [| fold ulp; ring].
    destruct (Z.sgn_spec z) as [[_ ->] | [[_ ->] | [_ ->]]]; lia.
Qed.

(** Rounding does not step over a double. *)
Lemma to_double_below (x p : Z) :
  0 ≤ p → is_double p → x ≤ p → to_double x ≤ p.
Proof.
  intros Hp (k & e & He & Hk & Hpk) Hx. unfold to_double.
  destruct (Z.abs x <=? 9007199254740992) eqn:E; [exact Hx |].
  apply Z.leb_gt in E.
  destruct (significand_bounds (Z.abs x) E) as (HL & Hulp & Hlo & Hhi).
  cbv zeta in *. set (L := Z.log2 (Z.abs x) - 52) in *.
  set (ulp := 2 ^ L) in *.
  set (q := Z.abs x / ulp). set (r := Z.abs x mod ulp).
  assert (Hdm : Z.abs x = ulp * q + r) by (apply Z.div_mod; lia).
  assert (Hr : 0 ≤ r < ulp) by (apply Z.mod_pos_bound; lia).
  assert (Hq : 0 ≤ q) by (apply Z.div_pos; lia).
  destruct (Z.sgn_spec x) as [[Hs ->] | [[Hs ->] | [Hs ->]]].
  - (* x positive *)
    assert (Ha : Z.abs x = x) by lia. rewrite Ha in *.
    destruct ((2 * r <? ulp) || ((2 * r =? ulp) && Z.even q)) eqn:Hround;
      [nia |].
    assert (Hr0 : 0 < r).
    { apply orb_false_iff in Hround as [H1 _]. apply Z.ltb_ge in H1. lia. }
    (* the double p is a multiple of ulp *)
    assert (H2e : 0 < 2 ^ e) by (apply Z.pow_pos_nonneg; lia).
    assert (Hmul : ∃ b, p = b * ulp).
    { destruct (Z_lt_le_dec e L) as [Hlt | Hge].
      - exfalso.
        assert (2 ^ e * 2 ≤ ulp).
        { subst ulp.
          replace L with (e + 1 + (L - e - 1)) by lia.
          rewrite !Z.pow_add_r by lia.
          assert (0 < 2 ^ (L - e - 1)) by (apply Z.pow_pos_nonneg; lia).
          change (2 ^ 1) with 2. nia. }
        assert (Hple : p ≤ 4503599627370496 * ulp)
          by (destruct (Z.abs_spec k); nia).
        assert (Heq : ulp * (4503599627370496 - q) = r) by lia.
        destruct (Z_lt_le_dec q 4503599627370496); nia.
      - exists (k * 2 ^ (e - L)). subst ulp.
        rewrite <- Z.mul_assoc, <- Z.pow_add_r by lia.
        rewrite Hpk. do 2 f_equal. lia. }
    destruct Hmul as [b Hb].
    assert (Hqb : q + 1 ≤ b).
    { destruct (Z_lt_le_dec q b); [lia |]. exfalso.
      assert (b * ulp ≤ q * ulp) by (apply Z.mul_le_mono_nonneg_r; lia).
      lia. }
    assert ((q + 1) * ulp ≤ b * ulp) by (apply Z.mul_le_mono_nonneg_r; lia).
    lia.
  - lia.
  - (* x negative: the result is not positive *)
    assert (0 ≤ (if (2 * r <? ulp) || ((2 * r =? ulp) && Z.even q)
                 then q else q + 1) * ulp)
      by (destruct (_ || _); nia).
    lia.
Qed.

(** ** Listing *)

Lemma get_pokemons_at (w : World) (v : option FormValue) (n : JsNum) :
  connected w = true →
  parseInt query_object v None = inr n →
  1 ≤ num_or n 1 →
  get_pokemons v w =
    (Sent (mkResponse 200
       (JPage (Int (num_or n 1))
              (ceil_div (Z.of_nat (List.length (docs w))) 20)
              (take 20 (drop (Z.to_nat ((num_or n 1 - 1) * 20)) (docs w))))),
     w).
Proof.
  intros Hc Hp Hn.
  unfold get_pokemons, try_catch, mbind, Eff_bind, lift, query, mret, Eff_ret.
  rewrite Hp, Hc. unfold pokemon.find_skip_limit.
  destruct ((num_or n 1 - 1) * 20 <? 0) eqn:E; [lia |].
  simpl. rewrite Hc. reflexivity.
Qed.

(** C9.  Listing uses pages of 20 records, skips [(page - 1) * 20] of them,
    and reads an absent or non-numeric page as page 1; of 25 stored records
    page 1 holds the first 20 with 2 pages in all, page 2 the other 5 and
    page 3 none, each with status 200. *)
Theorem list_pagination (w : World) :
  connected w = true →
  (∀ v n, parseInt query_object v None = inr (Int n) → 1 ≤ n →
     get_pokemons v w =
       (Sent (mkResponse 200
          (JPage (Int n) (ceil_div (Z.of_nat (List.length (docs w))) 20)
                 (take 20 (drop (Z.to_nat ((n - 1) * 20)) (docs w))))), w)) ∧
  (∀ v, v = None ∨ parseInt query_object v None = inr NaN →
     get_pokemons v w = get_pokemons (Some (FStr "1")) w) ∧
  (List.length (docs w) = 25%nat →
     get_pokemons (Some (FStr "1")) w =
       (Sent (mkResponse 200 (JPage (Int 1) 2 (take 20 (docs w)))), w) ∧
     List.length (take 20 (docs w)) = 20%nat ∧
     get_pokemons (Some (FStr "2")) w =
       (Sent (mkResponse 200 (JPage (Int 2) 2 (drop 20 (docs w)))), w) ∧
     List.length (drop 20 (docs w)) = 5%nat ∧
     get_pokemons (Some (FStr "3")) w =
       (Sent (mkResponse 200 (JPage (Int 3) 2 [])), w)).
Proof.
  intros Hc. split; [| split].
  - intros v n Hp Hn.
    rewrite (get_pokemons_at w v (Int n) Hc Hp); simpl;
      destruct (n =? 0) eqn:E; try lia; reflexivity.
  - intros v Hv.
    assert (Hnan : parseInt query_object v None = inr NaN)
      by (destruct Hv as [-> | Hv]; [reflexivity | exact Hv]).
    rewrite (get_pokemons_at w v NaN Hc Hnan) by (simpl; lia).
    rewrite (get_pokemons_at w (Some (FStr "1")) (Int 1) Hc eq_refl)
      by (simpl; lia).
    reflexivity.
  - intros Hlen.
    rewrite (get_pokemons_at w (Some (FStr "1")) (Int 1) Hc eq_refl)
      by (simpl; lia).
    rewrite (get_pokemons_at w (Some (FStr "2")) (Int 2) Hc eq_refl)
      by (simpl; lia).
    rewrite (get_pokemons_at w (Some (FStr "3")) (Int 3) Hc eq_refl)
      by (simpl; lia).
    rewrite Hlen. simpl num_or.
    replace (Z.to_nat ((1 - 1) * 20)) with 0%nat by reflexivity.
    replace (Z.to_nat ((2 - 1) * 20)) with 20%nat by reflexivity.
    replace (Z.to_nat ((3 - 1) * 20)) with 40%nat by reflexivity.
    rewrite drop_0, length_take, length_drop, Hlen.
    rewrite (take_ge (drop 20 (docs w))) by (rewrite length_drop; lia).
    rewrite (drop_ge (docs w) 40) by lia.
    repeat split; reflexivity.
Qed.

Lemma list_pagination_witness :
  get_pokemons (Some (FStr "3")) world25 =
    (Sent (mkResponse 200 (JPage (Int 3) 2 [])), world25).
Proof.
  destruct (list_pagination world25 eq_refl) as (_ & _ & H).
  destruct (H eq_refl) as (_ & _ & _ & _ & H3).
  exact H3.
Defined.

(** ** The [catch] of the handlers with an upload *)

Lemma cleanup_cases (file : option UploadedFile) (w : World) :
  (cleanup file w = (inr (), w) ∧
   match file with
   | Some f => Fs.existsSync (files w) (path f) = false
   | None => True
   end) ∨
  (∃ f c, file = Some f ∧ Fs.stat (files w) (path f) = Some (Fs.File c) ∧
     cleanup file w =
       (inr (), mkWorld (docs w) (connected w) (delete (path f) (files w)))) ∨
  (∃ f e, file = Some f ∧ Fs.stat (files w) (path f) = Some Fs.Dir ∧
     cleanup file w = (inl e, w)).
Proof.
  destruct file as [f |]; [| left; split; reflexivity || exact I].
  unfold cleanup, existsSync, unlinkSync, fs_call, Fs.unlinkSync, mbind,
    Eff_bind, mret, Eff_ret, Fs.existsSync.
  destruct (Fs.stat (files w) (path f)) as [[c |] |] eqn:E.
  - right; left. exists f, c. rewrite bool_decide_eq_true_2 by eauto.
    simpl. rewrite E. auto.
  - right; right. exists f, (FsError "EISDIR").
    rewrite bool_decide_eq_true_2 by eauto. simpl. rewrite E. auto.
  - left. rewrite bool_decide_eq_false_2 by (intros [? ?]; discriminate).
    auto.
Qed.

(** A response of the [catch] carries its status code and the message. *)
Lemma upload_catch_sent (code : Z) (file : option UploadedFile) (e : Error)
  (w w' : World) (r : Response) :
  upload_catch code file e w = (inr r, w') →
  r = mkResponse code (JError (message e)).
Proof.
  unfold upload_catch, mbind, Eff_bind, mret, Eff_ret.
  destruct (cleanup file w) as [[e1 | []] w1]; intros; simplify_eq; auto.
Qed.

(** ** Creating *)

(** What a [try] block of POST that returns went through. *)
Lemma post_try_returns (dir : string) (raw : gmap string FormValue)
  (file : option UploadedFile) (w w' : World) (r : Response) :
  post_try dir raw file w = (inr r, w') →
  ∃ base fs' image p,
    let id := assigned_id (pokemon.findOne_sort_id_desc (docs w)) in
    read_base raw = inr base ∧
    connected w = true ∧
    match file with
    | Some f =>
        let extension := Path.extname (originalname f) in
        Fs.renameSync (files w) (path f) (finalPath dir (Int id) extension)
          = inr fs' ∧
        image = base_url +:+ finalName (Int id) extension
    | None => fs' = files w ∧ image = default_image
    end ∧
    pokemon.validate
      (pokemon.mkData id (read_name raw) (read_type raw) base image) = inr p ∧
    r = mkResponse 201 (JDoc p) ∧
    w' = mkWorld (docs w ++ [p])%list true fs'.
Proof.
  intros Hrun.
  unfold post_try, mbind, Eff_bind, lift, query, command, mret, Eff_ret
    in Hrun.
  destruct (read_base raw) as [e | base] eqn:Hbase; [discriminate |].
  destruct (connected w) eqn:Hc; [| discriminate].
  destruct file as [f |].
  - unfold renameSync, fs_call in Hrun. simpl in Hrun.
    destruct (Fs.renameSync (files w) (path f) _) as [e | fs'] eqn:Hren;
      [discriminate |].
    simpl in Hrun. rewrite Hc in Hrun. unfold pokemon.save in Hrun.
    destruct (pokemon.validate _) as [e | p] eqn:Hval; [discriminate |].
    simplify_eq. eexists base, fs', _, p. simpl. rewrite ?Hc. eauto 10.
  - simpl in Hrun. rewrite Hc in Hrun. unfold pokemon.save in Hrun.
    destruct (pokemon.validate _) as [e | p] eqn:Hval; [discriminate |].
    simplify_eq. eexists base, (files w), _, p. simpl. rewrite ?Hc. eauto 10.
Qed.

(** A POST answers 201 only from its [try] block. *)
Lemma post_created (dir : string) (raw : gmap string FormValue)
  (file : option UploadedFile) (w w' : World) (r : Response) :
  post_pokemons dir raw file w = (Sent r, w') →
  status r = 201 →
  post_try dir raw file w = (inr r, w').
Proof.
  unfold post_pokemons, try_catch. intros Hrun Hst.
  destruct (post_try dir raw file w) as [[e | r1] w1].
  - destruct (upload_catch 400 file e w1) as [[e1 | r1] w2] eqn:Hcatch.
    + discriminate.
    + apply upload_catch_sent in Hcatch. simplify_eq.
  - by simplify_eq.
Qed.

(** The document of greatest identity. *)
Lemma findOne_sort_id_desc_spec (l : list pokemon.Doc) :
  match pokemon.findOne_sort_id_desc l with
  | None => l = []
  | Some q => q ∈ l ∧ ∀ p, p ∈ l → pokemon.id p ≤ pokemon.id q
  end.
Proof.
  induction l as [| p l IH]; simpl; [reflexivity |].
  destruct (pokemon.findOne_sort_id_desc l) as [q |].
  - destruct IH as [Hq Hmax].
    destruct (pokemon.id p <? pokemon.id q) eqn:E.
    + split; [by right |]. intros p' [-> | Hin]%elem_of_cons; [lia | auto].
    + split; [by left |]. intros p' [-> | Hin]%elem_of_cons; [lia |].
      specialize (Hmax p' Hin). lia.
  - subst l. split; [by left |].
    intros p' [-> | Hin]%elem_of_cons; [lia | by apply elem_of_nil in Hin].
Qed.

(** A validated document keeps the fields of the data, cast. *)
Lemma validate_fields (d : pokemon.NewPokemonData) (p : pokemon.Doc) :
  pokemon.validate d = inr p →
  pokemon.id p = pokemon.d_id d ∧
  pokemon.image p = pokemon.d_image d ∧
  pokemon.castStats (pokemon.d_base d) = inr (pokemon.base p) ∧
  pokemon.castStringArray (pokemon.d_type d) = inr (pokemon.type p) ∧
  pokemon.d_name_french d = Some (FStr (pokemon.name_french p)).
Proof.
  unfold pokemon.validate. intros H.
  destruct (pokemon.d_name_french d) as [[s | l | o] |]; simpl in H;
    try discriminate; try (destruct s; discriminate).
  destruct s as [| c s]; [discriminate |].
  destruct (pokemon.castStringArray _) as [? | t]; [discriminate |].
  destruct (pokemon.castStats _) as [? | b]; [discriminate |].
  by simplify_eq.
Qed.

(** C1.  A create that answers 201 has appended the returned record to the
    collection.  Its identity is 1 when nothing was stored, and otherwise
    the sum, as numbers add, of the greatest identity stored before the call
    and 1: one more than it when it is a safe integer. *)
Theorem create_assigns_next_identity (dir : string)
  (raw : gmap string FormValue) (file : option UploadedFile)
  (w w' : World) (r : Response) :
  post_pokemons dir raw file w = (Sent r, w') →
  status r = 201 →
  ∃ p, body r = JDoc p ∧ docs w' = (docs w ++ [p])%list ∧
    (docs w = [] → pokemon.id p = 1) ∧
    (∀ m, (∃ q, q ∈ docs w ∧ pokemon.id q = m) →
          (∀ q, q ∈ docs w → pokemon.id q ≤ m) →
          pokemon.id p = add m 1 ∧ (safe m → pokemon.id p = m + 1)).
Proof.
  intros Hrun Hst.
  pose proof (post_created _ _ _ _ _ _ Hrun Hst) as Htry.
  apply post_try_returns in Htry
    as (b & fs' & img & p & _ & _ & _ & Hval & -> & ->).
  apply validate_fields in Hval as (Hid & _). simpl in Hid.
  exists p. split; [reflexivity |]. split; [reflexivity |].
  pose proof (findOne_sort_id_desc_spec (docs w)) as Hmax.
  destruct (pokemon.findOne_sort_id_desc (docs w)) as [q |]; simpl in Hid.
  - destruct Hmax as [Hq Hmax]. split.
    + intros Hnil. rewrite Hnil in Hq. by apply elem_of_nil in Hq.
    + intros m (q' & Hq' & <-) Hle.
      specialize (Hmax q' Hq'). specialize (Hle q Hq).
      assert (Heq : pokemon.id q = pokemon.id q') by lia.
      rewrite Heq in Hid. split; [exact Hid |].
      intros Hsafe. by rewrite Hid, add_one_safe.
  - split; [auto |].
    intros m (q' & Hq' & _) _. rewrite Hmax in Hq'.
    by apply elem_of_nil in Hq'.
Qed.

Lemma create_assigns_next_identity_witness :
  ∃ p, JDoc (mew default_image) = JDoc p ∧ pokemon.id p = 25 + 1.
Proof.
  assert (Hrun : post_pokemons app_dir mew_fields None sample_world =
    (Sent (mkResponse 201 (JDoc (mew default_image))),
     mkWorld (docs sample_world ++ [mew default_image])%list true sample_files))
    by (vm_compute; reflexivity).
  destruct (create_assigns_next_identity _ _ _ _ _ _ Hrun eq_refl)
    as (p & Hb & _ & _ & Hm).
  exists p. split; [exact Hb |].
  apply Hm.
  - exists (sample_doc 25 "Pikachu"). split; [| reflexivity].
    do 2 right. left.
  - intros q Hq. repeat (apply elem_of_cons in Hq as [-> | Hq]); simpl;
      try lia. by apply elem_of_nil in Hq.
  - vm_compute. discriminate.
Defined.

(** C1, as the claim has it, fails beyond the safe integers: when the
    greatest identity stored is 2^53, the sum with 1 rounds back to 2^53,
    and the record created gets the identity that the greatest record
    has. *)
Lemma create_repeats_identity_at_two53 :
  (∃ q, q ∈ docs far_world ∧ pokemon.id q = 9007199254740992) ∧
  (∀ q, q ∈ docs far_world → pokemon.id q ≤ 9007199254740992) ∧
  post_pokemons app_dir mew_fields None far_world =
    (Sent (mkResponse 201
       (JDoc (pokemon.mkDoc 9007199254740992 "Mew" ["Psy"]
                (mkStats 100 0 0 0 0 0) default_image))),
     mkWorld (docs far_world ++
              [pokemon.mkDoc 9007199254740992 "Mew" ["Psy"]
                 (mkStats 100 0 0 0 0 0) default_image])%list
             true sample_files) ∧
  9007199254740992 ≠ 9007199254740992 + 1.
Proof.
  split; [exists far_doc; split; [by right; left | reflexivity] |].
  split.
  - intros q Hq. repeat (apply elem_of_cons in Hq as [-> | Hq]);
      [vm_compute; discriminate | vm_compute; discriminate
      | by apply elem_of_nil in Hq].
  - split; [vm_compute; reflexivity | lia].
Qed.

(** ** The file system *)

Lemma stat_file (fs : gmap string Fs.Node) (p c : string) :
  Fs.stat fs p = Some (Fs.File c) →
  fs !! p = Some (Fs.File c) ∧
  Path.endsWithSlash p && negb (String.eqb p "/") = false.
Proof.
  unfold Fs.stat.
  destruct (Path.endsWithSlash p && negb (String.eqb p "/")); [| auto].
  destruct (fs !! Fs.key p) as [[] |]; discriminate.
Qed.

Lemma stat_plain (fs : gmap string Fs.Node) (p : string) :
  Path.endsWithSlash p && negb (String.eqb p "/") = false →
  Fs.stat fs p = fs !! p ∧ Fs.key p = p.
Proof. unfold Fs.stat, Fs.key. intros ->. auto. Qed.

Lemma stat_dir (fs : gmap string Fs.Node) (p : string) :
  fs !! Fs.key p = Some Fs.Dir → Fs.stat fs p = Some Fs.Dir.
Proof.
  unfold Fs.stat, Fs.key.
  destruct (Path.endsWithSlash p && negb (String.eqb p "/")); by intros ->.
Qed.

(** After [unlinkSync] the path names nothing. *)
Lemma stat_unlinked (fs : gmap string Fs.Node) (p c : string) :
  Fs.stat fs p = Some (Fs.File c) → Fs.stat (delete p fs) p = None.
Proof.
  intros [_ Hp]%stat_file.
  rewrite (proj1 (stat_plain _ _ Hp)). apply lookup_delete_eq.
Qed.

(** A rename that returns has put the entry of [src] at [dst]. *)
Lemma renameSync_moved (fs fs' : gmap string Fs.Node) (src dst : string) :
  Fs.renameSync fs src dst = inr fs' →
  ∃ n, Fs.stat fs src = Some n ∧ Fs.stat fs' dst = Some n.
Proof.
  unfold Fs.renameSync.
  destruct (Fs.stat fs src) as [n |] eqn:Hsrc; [| discriminate].
  destruct (Fs.stat fs (Path.dirname (Fs.key dst))) as [[] |];
    try discriminate.
  destruct n as [c |].
  - destruct (Path.endsWithSlash dst) eqn:Hslash; [discriminate |].
    destruct (fs !! dst) as [[] |] eqn:Hdst; try discriminate;
      intros ?; simplify_eq; exists (Fs.File c); (split; [reflexivity |]);
      rewrite (proj1 (stat_plain _ dst ltac:(by rewrite Hslash)));
      apply lookup_insert_eq.
  - destruct (fs !! Fs.key dst) as [[] |] eqn:Hdst; try discriminate;
      intros ?; simplify_eq; exists Fs.Dir; (split; [reflexivity |]);
      apply stat_dir, lookup_insert_eq.
Qed.


(** ** Substrings *)

Lemma startsWith_app (p s : string) : startsWith p (p +:+ s) = true.
Proof.
  induction p as [| c p IH]; [reflexivity |].
  change (String c p +:+ s) with (String c (p +:+ s)). simpl.
  by rewrite Ascii.eqb_refl.
Qed.

Lemma includes_startsWith (sub s : string) :
  startsWith sub s = true → includes sub s = true.
Proof. intros H. destruct s; simpl; rewrite H; reflexivity. Qed.

Lemma includes_app (a sub b : string) : includes sub (a +:+ sub +:+ b) = true.
Proof.
  induction a as [| c a IH].
  - change ("" +:+ sub +:+ b) with (sub +:+ b).
    apply includes_startsWith, startsWith_app.
  - change (String c a +:+ sub +:+ b) with (String c (a +:+ sub +:+ b)).
    simpl. rewrite IH. apply orb_true_r.
Qed.


(** ** Creating with an image *)

(** Where a [try] block of POST that throws leaves the world: as it was, or
    with the upload already renamed. *)
Lemma post_try_throws (dir : string) (raw : gmap string FormValue)
  (file : option UploadedFile) (w w1 : World) (e : Error) :
  post_try dir raw file w = (inl e, w1) →
  w1 = w ∨
  ∃ f fs', file = Some f ∧
    Fs.renameSync (files w) (path f)
      (finalPath dir
         (Int (assigned_id (pokemon.findOne_sort_id_desc (docs w))))
         (Path.extname (originalname f))) = inr fs' ∧
    w1 = mkWorld (docs w) (connected w) fs'.
Proof.
  intros Hrun.
  unfold post_try, mbind, Eff_bind, lift, query, command, mret, Eff_ret
    in Hrun.
  destruct (read_base raw) as [e0 | base]; [left; by simplify_eq |].
  destruct (connected w) eqn:Hc; [| left; by simplify_eq].
  destruct file as [f |].
  - unfold renameSync, fs_call in Hrun. simpl in Hrun.
    destruct (Fs.renameSync (files w) (path f) _) as [e0 | fs'] eqn:Hren;
      [left; by simplify_eq |].
    simpl in Hrun. rewrite Hc in Hrun. unfold pokemon.save in Hrun.
    destruct (pokemon.validate _) as [e0 | p]; [| discriminate].
    right. exists f, fs'. by simplify_eq.
  - simpl in Hrun. rewrite Hc in Hrun. unfold pokemon.save in Hrun.
    destruct (pokemon.validate _) as [e0 | p]; [| discriminate].
    left. by simplify_eq.
Qed.



(** ** Uploads *)

(** The callback [destination] gives the assets directory and may have made
    it; or the making of it throws. *)
Lemma destination_cases (dir : string) (w : World) :
  (∃ e, destination dir w = (inl e, w)) ∨
  (∃ w1, destination dir w = (inr (Path.join [dir; assets]), w1) ∧
         docs w1 = docs w ∧ connected w1 = connected w).
Proof.
  unfold destination, mbind, Eff_bind, mret, Eff_ret, existsSync, fs_call.
  destruct (Fs.existsSync (files w) (Path.join [dir; assets])).
  - right. eauto.
  - destruct (Fs.mkdirSync (files w) (Path.join [dir; assets])) as [e | fs1].
    + left. eauto.
    + right. eauto.
Qed.

(** What multer has stored is a regular file with the bytes of the part,
    at the path that [req.file] gives; the collection is as it was. *)
Lemma upload_single_stores (dir : string) (now : Z) (part : FilePart)
  (w w1 : World) (file : option UploadedFile) :
  part_name part ≠ "" →
  upload_single dir now (Some part) w = (Stored file, w1) →
  ∃ f, file = Some f ∧
    originalname f = part_name part ∧
    path f = Path.join [Path.join [dir; assets];
                        filename now (part_name part)] ∧
    Fs.stat (files w1) (path f) = Some (Fs.File (part_content part)) ∧
    docs w1 = docs w ∧ connected w1 = connected w.
Proof.
  intros Hname. unfold upload_single.
  rewrite bool_decide_eq_false_2 by exact Hname.
  set (p := Path.join [Path.join [dir; assets]; filename now (part_name part)]).
  destruct (destination_cases dir w) as [[e ->] | (w0 & -> & Hd & Hc)];
    [discriminate |].
  fold p. unfold fs_call, Fs.createWriteStream. intros Hrun.
  destruct (Fs.stat (files w0) (Path.dirname p)) as [[] |];
    try discriminate.
  destruct (Path.endsWithSlash p) eqn:Hslash; [discriminate |].
  destruct (files w0 !! p) as [[] |]; try discriminate; simplify_eq;
    (eexists; repeat split; cbn [path files docs connected]; try done;
     rewrite (proj1 (stat_plain _ p ltac:(by rewrite Hslash)));
     apply lookup_insert_eq).
Qed.

(** ** Failed creates *)




(** ** The statistics of a created record *)






(** ** Searching *)

Section Literal.

Import Regex.

Lemma token_of_literal (c : ascii) : is_meta c = false → token_of c = TChar c.
Proof.
  intros Hc. unfold token_of.
  repeat match goal with
  | |- context [Ascii.eqb c ?d] =>
      destruct (Ascii.eqb_spec c d) as [-> | _]; [discriminate Hc |]
  end.
  by rewrite Hc.
Qed.

Lemma tokenize_literal (x : string) :
  is_literal x = true → tokenize x = TChar <$> list_ascii_of_string x.
Proof.
  induction x as [| c x IH]; simpl; [reflexivity |].
  intros [Hc Hx]%andb_true_iff. apply negb_true_iff in Hc.
  destruct (Ascii.eqb_spec c "\") as [-> | _]; [discriminate Hc |].
  by rewrite token_of_literal, IH.
Qed.

Lemma parse_literal (alts items : list Re) (q : QState) (cs : list ascii) :
  parse alts items q (TChar <$> cs) =
  Ok (alt_of (rev (seq_of (rev ((rev (Chr <$> cs) ++ items)%list)) :: alts))).
Proof.
  revert items q. induction cs as [| c cs IH]; intros items q; simpl.
  - reflexivity.
  - rewrite IH. by rewrite <- app_assoc.
Qed.

Lemma compile_literal (x : string) :
  is_literal x = true →
  compile x = Ok (seq_of (Chr <$> list_ascii_of_string x)).
Proof.
  intros Hx. unfold compile. rewrite (tokenize_literal x Hx).
  replace (existsb is_other (TChar <$> list_ascii_of_string x)) with false.
  - rewrite parse_literal. simpl. by rewrite app_nil_r, rev_involutive.
  - symmetry. induction (list_ascii_of_string x); simpl; auto.
Qed.

Lemma sAlt_Empty_r (r : Re) : sAlt r Empty = r.
Proof. by destruct r. Qed.

Lemma matches_prefix_Empty (s : string) : matches_prefix Empty s = false.
Proof. induction s; simpl; auto. Qed.

Lemma matches_prefix_literal (cs : list ascii) (s : string) :
  matches_prefix (seq_of (Chr <$> cs)) s =
  startsWith (toLowerCase (string_of_list_ascii cs)) (toLowerCase s).
Proof.
  revert s. induction cs as [| a cs IH]; intros s.
  - by destruct s.
  - destruct s as [| c s]; [reflexivity |].
    cbn [fmap list_fmap seq_of foldr matches_prefix nullable andb orb deriv
         string_of_list_ascii toLowerCase startsWith].
    fold (seq_of (Chr <$> cs)).
    destruct (Ascii.eqb (lower a) (lower c)); simpl.
    + rewrite sAlt_Empty_r. apply IH.
    + apply matches_prefix_Empty.
Qed.

Lemma test_literal (x s : string) :
  test (seq_of (Chr <$> list_ascii_of_string x)) s = contains_ci x s.
Proof.
  unfold contains_ci. induction s as [| c s IH].
  - cbn [test toLowerCase includes]. rewrite matches_prefix_literal.
    by rewrite string_of_list_ascii_of_string.
  - cbn [test toLowerCase includes]. rewrite IH, matches_prefix_literal.
    by rewrite string_of_list_ascii_of_string.
Qed.

End Literal.

(** The matcher against the strings an expression matches. *)
Section Derivatives.

Import Regex.

Lemma nullable_spec (r : Re) : nullable r = true ↔ matches r [].
Proof.
  induction r as [| | a | | r1 IH1 r2 IH2 | r1 IH1 r2 IH2 | r IH]; simpl.
  - split; [discriminate | inversion 1].
  - split; [constructor | reflexivity].
  - split; [discriminate | inversion 1].
  - split; [discriminate | inversion 1].
  - rewrite andb_true_iff, IH1, IH2. split.
    + intros [H1 H2]. apply (MSeq _ _ [] [] H1 H2).
    + inversion 1 as [| | | ? ? s1 s2 H1 H2 | | | |]; subst.
      match goal with
      | Heq : (_ ++ _)%list = [] |- _ => apply app_eq_nil in Heq as [-> ->]
      end.
      auto.
  - rewrite orb_true_iff, IH1, IH2. split.
    + intros [H | H]; [by apply MAltL | by apply MAltR].
    + inversion 1; subst; auto.
  - split; [constructor | reflexivity].
Qed.

Lemma sSeq_spec (r1 r2 : Re) (s : list ascii) :
  matches (sSeq r1 r2) s ↔ matches (Seq r1 r2) s.
Proof.
  destruct r1; simpl; try reflexivity.
  - split; inversion 1; subst.
    match goal with H : matches Empty _ |- _ => inversion H end.
  - split.
    + intros H. apply (MSeq Eps r2 [] s); [constructor | exact H].
    + inversion 1 as [| | | ? ? s1 s2 H1 H2 | | | |]; subst.
      by inversion H1; subst.
Qed.

Lemma sAlt_spec (r1 r2 : Re) (s : list ascii) :
  matches (sAlt r1 r2) s ↔ matches (Alt r1 r2) s.
Proof.
  assert (Hempty : ∀ t, ¬ matches Empty t) by (intros t H; inversion H).
  destruct r1, r2; simpl; try reflexivity;
    (split; [intros H; (by apply MAltL) || (by apply MAltR)
            | inversion 1; subst; auto; exfalso; by eapply Hempty]).
Qed.

(** A starred expression matches a non-empty string by a first non-empty
    round. *)
Lemma star_cons (r : Re) (c : ascii) (s : list ascii) :
  matches (Star r) (c :: s) →
  ∃ s1 s2, s = (s1 ++ s2)%list ∧ matches r (c :: s1) ∧ matches (Star r) s2.
Proof.
  intros H. remember (Star r) as r' eqn:Hr. remember (c :: s) as t eqn:Ht.
  revert s Ht.
  induction H as [| | | | | | | r0 s1 s2 H1 _ H2 IH2]; intros t' Ht;
    try discriminate.
  injection Hr as ->.
  destruct s1 as [| d s1]; simpl in Ht.
  - by apply IH2.
  - injection Ht as Hd Ht. subst d t'. eauto.
Qed.

Lemma deriv_spec (c : ascii) (r : Re) (s : list ascii) :
  matches (deriv c r) s ↔ matches r (c :: s).
Proof.
  revert s.
  induction r as [| | a | | r1 IH1 r2 IH2 | r1 IH1 r2 IH2 | r IH];
    intros s; simpl.
  - split; inversion 1.
  - split; inversion 1.
  - destruct (Ascii.eqb_spec (lower a) (lower c)) as [Heq | Hne].
    + split; [inversion 1; by constructor | inversion 1; constructor].
    + split; [inversion 1 | inversion 1; by subst].
  - destruct (Ascii.eqb_spec c line_feed) as [Heq | Hne].
    + split; [inversion 1 | inversion 1; by subst].
    + split; [inversion 1; by constructor | inversion 1; constructor].
  - rewrite sAlt_spec. split.
    + inversion 1 as [| | | | ? ? ? H1 | ? ? ? H2 | |]; subst.
      * apply sSeq_spec in H1.
        inversion H1 as [| | | ? ? s1 s2 Ha Hb | | | |]; subst.
        apply IH1 in Ha. apply (MSeq r1 r2 (c :: s1) s2 Ha Hb).
      * destruct (nullable r1) eqn:Hn; [| inversion H2].
        apply nullable_spec in Hn. apply IH2 in H2.
        apply (MSeq r1 r2 [] (c :: s) Hn H2).
    + inversion 1 as [| | | ? ? s1 s2 Ha Hb | | | |]; subst.
      match goal with
      | H : (_ ++ _)%list = _ :: _ |- _ => rename H into Heq
      end.
      destruct s1 as [| d s1]; simpl in Heq.
      * subst s2. apply MAltR.
        rewrite (proj2 (nullable_spec r1) Ha). by apply IH2.
      * injection Heq as Hd Heq. subst d s. apply MAltL, sSeq_spec.
        apply MSeq; [by apply IH1 | done].
  - rewrite sAlt_spec. split.
    + inversion 1; subst; [apply MAltL; by apply IH1 | apply MAltR; by apply IH2].
    + inversion 1; subst; [apply MAltL; by apply IH1 | apply MAltR; by apply IH2].
  - rewrite sSeq_spec. split.
    + inversion 1 as [| | | ? ? s1 s2 Ha Hb | | | |]; subst.
      apply IH in Ha. apply (MStarS r (c :: s1) s2 Ha Hb).
    + intros (s1 & s2 & -> & Ha & Hb)%star_cons.
      apply MSeq; [by apply IH | done].
Qed.

Lemma matches_prefix_spec (r : Re) (s : string) :
  matches_prefix r s = true ↔
  ∃ pre suf, list_ascii_of_string s = (pre ++ suf)%list ∧ matches r pre.
Proof.
  revert r. induction s as [| c s IH]; intros r; simpl.
  - rewrite orb_false_r, nullable_spec. split.
    + intros H. by exists [], [].
    + intros (pre & suf & Heq & H).
      symmetry in Heq. by apply app_eq_nil in Heq as [-> ->].
  - rewrite orb_true_iff, nullable_spec, IH. split.
    + intros [H | (pre & suf & Heq & H)].
      * by exists [], (c :: list_ascii_of_string s).
      * exists (c :: pre), suf. split; [by rewrite Heq | by apply deriv_spec].
    + intros (pre & suf & Heq & H). destruct pre as [| d pre].
      * by left.
      * injection Heq as <- Heq. right. exists pre, suf.
        split; [done | by apply deriv_spec].
Qed.

(** [test] is the unanchored search: some substring matches. *)
Lemma test_spec (r : Re) (s : string) :
  test r s = true ↔
  ∃ before m after,
    list_ascii_of_string s = (before ++ m ++ after)%list ∧ matches r m.
Proof.
  induction s as [| c s IH]; cbn [test].
  - rewrite orb_false_r, matches_prefix_spec. split.
    + intros (pre & suf & Heq & H). by exists [], pre, suf.
    + intros (a & m & b & Heq & H). simpl in Heq. symmetry in Heq.
      apply app_eq_nil in Heq as [-> Heq]. exists m, b. by rewrite Heq.
  - rewrite orb_true_iff, IH, matches_prefix_spec. split.
    + intros [(pre & suf & Heq & H) | (a & m & b & Heq & H)].
      * by exists [], pre, suf.
      * exists (c :: a), m, b. split; [simpl; by rewrite Heq | done].
    + intros (a & m & b & Heq & H). destruct a as [| d a].
      * left. by exists m, b.
      * injection Heq as Hd Heq. right. by exists a, m, b.
Qed.

End Derivatives.

Lemma search_matching (pcre : string → option (string → bool)) (w : World)
  (x : string) (f : string → bool) :
  trim x ≠ "" → name_matches pcre x = inr f → connected w = true →
  get_pokemons_search pcre (Some (FStr x)) w =
    (Sent (mkResponse 200
       (JDocs (filter (λ p, f (pokemon.name_french p) = true) (docs w)))), w).
Proof.
  intros Hx Hf Hc.
  unfold get_pokemons_search, try_catch, js_or.
  assert (Hne : x ≠ "") by (intros ->; by apply Hx).
  destruct x as [| c x]; [done |]. cbn [truthy].
  rewrite bool_decide_eq_false_2 by exact Hx.
  unfold mbind, Eff_bind, query, mret, Eff_ret, find_regex.
  by rewrite Hc, Hf.
Qed.

(** C3, as the code has it.  A query that is absent, empty or blank gives
    an empty result whatever the world; a query that is not blank and is a
    valid pattern gives the records whose name matches it as a caseless
    regular expression, which for a query without pattern characters are
    exactly the records whose name contains it, case folded. *)
Theorem search_results (pcre : string → option (string → bool)) (w : World) :
  (∀ q, truthy q = false ∨ (∃ s, q = Some (FStr s) ∧ trim s = "") →
     get_pokemons_search pcre q w = (Sent (mkResponse 200 (JDocs [])), w)) ∧
  (∀ x f, trim x ≠ "" → name_matches pcre x = inr f → connected w = true →
     get_pokemons_search pcre (Some (FStr x)) w =
       (Sent (mkResponse 200
          (JDocs (filter (λ p, f (pokemon.name_french p) = true) (docs w)))),
        w)) ∧
  (∀ x, trim x ≠ "" → Regex.is_literal x = true → connected w = true →
     get_pokemons_search pcre (Some (FStr x)) w =
       (Sent (mkResponse 200
          (JDocs (filter (λ p, contains_ci x (pokemon.name_french p) = true)
                         (docs w)))), w)).
Proof.
  split; [| split].
  - intros q [Hq | (s & -> & Hs)].
    + unfold get_pokemons_search, try_catch, js_or. rewrite Hq. reflexivity.
    + unfold get_pokemons_search, try_catch, js_or.
      destruct (truthy (Some (FStr s))); by rewrite ?Hs.
  - intros x f. apply search_matching.
  - intros x Hx Hlit Hc.
    assert (Hf : name_matches pcre x = inr
      (Regex.test (Regex.seq_of (Regex.Chr <$> list_ascii_of_string x))))
      by (unfold name_matches; by rewrite compile_literal).
    rewrite (search_matching pcre w x _ Hx Hf Hc).
    do 4 f_equal. apply list_filter_iff. intros p.
    by rewrite test_literal.
Qed.

Lemma search_results_witness :
  get_pokemons_search no_pcre (Some (FStr "   ")) sample_world =
    (Sent (mkResponse 200 (JDocs [])), sample_world) ∧
  get_pokemons_search no_pcre (Some (FStr "b.z")) sample_world =
    (Sent (mkResponse 200
       (JDocs [sample_doc 1 "Bulbizarre"; sample_doc 2 "Herbizarre"])),
     sample_world) ∧
  get_pokemons_search no_pcre (Some (FStr "BIZ")) sample_world =
    (Sent (mkResponse 200
       (JDocs [sample_doc 1 "Bulbizarre"; sample_doc 2 "Herbizarre"])),
     sample_world).
Proof.
  destruct (search_results no_pcre sample_world) as (Hblank & Hre & Hlit).
  split; [| split].
  - apply Hblank. right. exists "   ". split; reflexivity.
  - exact (Hre "b.z" _ ltac:(discriminate) eq_refl eq_refl).
  - exact (Hlit "BIZ" ltac:(discriminate) eq_refl eq_refl).
Defined.

(** C3, as the claim has it, fails: the query "." is not blank and no
    sample name contains a dot, yet the search returns every record. *)
Lemma search_dot_matches_every_name :
  trim "." ≠ "" ∧
  filter (λ p, contains_ci "." (pokemon.name_french p) = true)
         (docs sample_world) = [] ∧
  get_pokemons_search no_pcre (Some (FStr ".")) sample_world =
    (Sent (mkResponse 200 (JDocs (docs sample_world))), sample_world).
Proof. split; [discriminate |]. split; reflexivity. Qed.

(** ** Updating *)

(** [update_first] changes the first document of identity [z], if any. *)
Lemma update_first_spec (z : Z) (c : pokemon.CastUpdates)
  (l : list pokemon.Doc) :
  match pokemon.update_first z c l with
  | (Some p', l') =>
      ∃ l1 p l2, l = (l1 ++ p :: l2)%list ∧ l' = (l1 ++ p' :: l2)%list ∧
        p' = pokemon.apply_set c p ∧ pokemon.id p = z ∧
        ∀ q, q ∈ l1 → pokemon.id q ≠ z
  | (None, l') => l' = l ∧ ∀ q, q ∈ l → pokemon.id q ≠ z
  end.
Proof.
  induction l as [| p l IH]; simpl.
  - split; [reflexivity |]. intros q Hq. by apply elem_of_nil in Hq.
  - destruct (decide (pokemon.id p = z)) as [Hz | Hz].
    + exists [], p, l. repeat split; auto.
      intros q Hq. by apply elem_of_nil in Hq.
    + destruct (pokemon.update_first z c l) as [[p' |] l'].
      * destruct IH as (l1 & p0 & l2 & -> & -> & -> & Hid & Hl1).
        exists (p :: l1), p0, l2. repeat split; auto.
        intros q [-> | Hq]%elem_of_cons; auto.
      * destruct IH as [-> Hl]. split; [reflexivity |].
        intros q [-> | Hq]%elem_of_cons; auto.
Qed.

(** What a [try] block of PUT that returns went through. *)
Lemma put_try_returns (dir id_param : string) (raw : gmap string FormValue)
  (file : option UploadedFile) (w w' : World) (r : Response) :
  put_try dir id_param raw file w = (inr r, w') →
  let pokeId := parseInt_string id_param (Some 10) in
  ∃ base fs' image z c updated docs',
    base_updates raw = inr base ∧
    connected w = true ∧
    match file with
    | Some f =>
        let extension := Path.extname (originalname f) in
        Fs.renameSync (files w) (path f) (finalPath dir pokeId extension)
          = inr fs' ∧
        image = Some (base_url +:+ finalName pokeId extension)
    | None => fs' = files w ∧ image = None
    end ∧
    pokeId = Int z ∧
    pokemon.castUpdate
      (pokemon.mkUpdates
         (if truthy (raw !! "name.french") then raw !! "name.french" else None)
         base
         (if truthy (raw !! "type") then split_types <$> raw !! "type" else None)
         image) = inr c ∧
    pokemon.update_first z c (docs w) = (updated, docs') ∧
    w' = mkWorld docs' true fs' ∧
    r = match updated with
        | Some p => mkResponse 200 (JDoc p)
        | None => mkResponse 404 (JError "Introuvable")
        end.
Proof.
  intros Hrun pokeId.
  unfold put_try, mbind, Eff_bind, lift, query, command, mret, Eff_ret
    in Hrun.
  fold pokeId in Hrun.
  destruct (base_updates raw) as [e | base] eqn:Hbase; [discriminate |].
  destruct (connected w) eqn:Hc.
  2:{ destruct file as [f |];
        [| simpl in Hrun; rewrite Hc in Hrun; discriminate].
      unfold renameSync, fs_call in Hrun. cbn beta iota in Hrun.
      destruct (Fs.renameSync (files w) (path f) _); [discriminate |].
      cbn [connected] in Hrun. rewrite Hc in Hrun. discriminate. }
  destruct file as [f |].
  - unfold renameSync, fs_call in Hrun. cbn beta iota in Hrun.
    destruct (Fs.renameSync (files w) (path f) _) as [e | fs'] eqn:Hren;
      [discriminate |].
    cbn [connected docs files] in Hrun. rewrite Hc in Hrun.
    unfold pokemon.findOneAndUpdate, pokemon.castNumber in Hrun.
    destruct pokeId as [| z]; [discriminate |].
    destruct (pokemon.castUpdate _) as [e | c] eqn:Hcast; [discriminate |].
    destruct (pokemon.update_first z c (docs w)) as [updated docs'] eqn:Hup.
    eexists base, fs', _, z, c, updated, docs'.
    destruct updated; simplify_eq; eauto 12.
  - cbn beta iota in Hrun. rewrite Hc in Hrun.
    unfold pokemon.findOneAndUpdate, pokemon.castNumber in Hrun.
    destruct pokeId as [| z]; [discriminate |].
    destruct (pokemon.castUpdate _) as [e | c] eqn:Hcast; [discriminate |].
    destruct (pokemon.update_first z c (docs w)) as [updated docs'] eqn:Hup.
    eexists base, (files w), _, z, c, updated, docs'.
    destruct updated; simplify_eq; eauto 12.
Qed.

(** A PUT answers something other than 500 only from its [try] block. *)
Lemma put_answered (dir id_param : string) (raw : gmap string FormValue)
  (file : option UploadedFile) (w w' : World) (r : Response) :
  put_pokemon dir id_param raw file w = (Sent r, w') →
  status r ≠ 500 →
  put_try dir id_param raw file w = (inr r, w').
Proof.
  unfold put_pokemon, try_catch. intros Hrun Hst.
  destruct (put_try dir id_param raw file w) as [[e | r1] w1].
  - destruct (upload_catch 500 file e w1) as [[e1 | r1] w2] eqn:Hcatch.
    + discriminate.
    + apply upload_catch_sent in Hcatch. by simplify_eq.
  - by simplify_eq.
Qed.

(** A [try] block of PUT without an upload that throws leaves the world as
    it was. *)
Lemma put_try_throws (dir id_param : string) (raw : gmap string FormValue)
  (w w1 : World) (e : Error) :
  put_try dir id_param raw None w = (inl e, w1) → w1 = w.
Proof.
  intros Hrun.
  unfold put_try, mbind, Eff_bind, lift, query, command, mret, Eff_ret
    in Hrun.
  destruct (base_updates raw) as [e0 | base]; [by simplify_eq |].
  cbn beta iota in Hrun.
  destruct (connected w) eqn:Hc; [| by simplify_eq].
  destruct (pokemon.findOneAndUpdate _ _ _) as [e0 | [[p |] docs']];
    by simplify_eq.
Qed.






(** ** Updating the HP alone *)

Lemma same_but_HP_refl (p : pokemon.Doc) : same_but_HP p p.
Proof. by repeat split. Qed.

Lemma update_first_at (z : Z) (c : pokemon.CastUpdates)
  (l1 l2 : list pokemon.Doc) (p : pokemon.Doc) :
  pokemon.id p = z → (∀ q, q ∈ l1 → pokemon.id q ≠ z) →
  pokemon.update_first z c (l1 ++ p :: l2)%list =
    (Some (pokemon.apply_set c p), (l1 ++ pokemon.apply_set c p :: l2)%list).
Proof.
  intros Hp. induction l1 as [| q l1 IH]; intros Hl1; simpl.
  - by rewrite decide_True.
  - rewrite decide_False by (apply Hl1; by left).
    rewrite IH; [reflexivity |]. intros q' Hq'. apply Hl1. by right.
Qed.

(** The update set of a body with [base.HP] alone. *)
Lemma only_HP_updates (raw : gmap string FormValue) (u : Stats (option JsNum))
  (c : pokemon.CastUpdates) :
  only_HP raw →
  base_updates raw = inr u →
  pokemon.castUpdate
    (pokemon.mkUpdates
       (if truthy (raw !! "name.french") then raw !! "name.french" else None)
       u
       (if truthy (raw !! "type") then split_types <$> raw !! "type" else None)
       None) = inr c →
  ∃ hp, c = pokemon.mkCast None (mkStats hp None None None None None)
              None None.
Proof.
  intros (Hn & Ht & Ha & Hd & Hsa & Hsd & Hsp) Hu.
  rewrite Hn, Ht. cbn [truthy].
  unfold base_updates, stat_update in Hu.
  rewrite Ha, Hd, Hsa, Hsd, Hsp in Hu. cbn [truthy] in Hu.
  destruct (truthy (raw !! "base.HP")).
  - destruct (parseInt body_object (raw !! "base.HP") None) as [e | n];
      [discriminate |].
    simplify_eq. unfold pokemon.castUpdate. cbn.
    destruct n as [| z]; [discriminate |]. intros H. cbn in H.
    simplify_eq. eauto.
  - simplify_eq. unfold pokemon.castUpdate. cbn. intros ?; simplify_eq. eauto.
Qed.

(** C6.  An update whose body has of the recognised fields only [base.HP],
    and no image, leaves the files alone and every record as it was but for
    the HP; when the field reads as the integer [n], the first record of
    the identity is answered with its HP set to [n] and all else kept. *)
Theorem update_hp_only (dir id_param : string) (raw : gmap string FormValue)
  (w : World) :
  only_HP raw →
  (∀ out w', put_pokemon dir id_param raw None w = (out, w') →
     files w' = files w ∧ connected w' = connected w ∧
     Forall2 same_but_HP (docs w) (docs w')) ∧
  (∀ l1 p l2 s n,
     connected w = true →
     docs w = (l1 ++ p :: l2)%list →
     (∀ q, q ∈ l1 → pokemon.id q ≠ pokemon.id p) →
     parseInt_string id_param (Some 10) = Int (pokemon.id p) →
     raw !! "base.HP" = Some (FStr s) →
     parseInt_string s None = Int n →
     put_pokemon dir id_param raw None w =
       (Sent (mkResponse 200 (JDoc (with_HP n p))),
        mkWorld (l1 ++ with_HP n p :: l2)%list true (files w))).
Proof.
  intros Honly. split.
  - intros out w' Hrun. unfold put_pokemon, try_catch in Hrun.
    destruct (put_try dir id_param raw None w) as [[e | r] w1] eqn:Htry.
    + apply put_try_throws in Htry as ->. simpl in Hrun. simplify_eq.
      repeat split. apply Forall2_same_length_lookup_2; [done |].
      intros i p p' Hp Hp'. simplify_eq. apply same_but_HP_refl.
    + simplify_eq.
      apply put_try_returns in Htry
        as (u & fs' & img & z & c & updated & docs' & Hu & Hc & [-> ->] & Hz
            & Hcast & Hup & -> & ->).
      destruct (only_HP_updates raw u c Honly Hu Hcast) as [hp ->].
      cbn [files connected docs]. repeat split; [by rewrite Hc |].
      pose proof (update_first_spec z
        (pokemon.mkCast None (mkStats hp None None None None None) None None)
        (docs w)) as Hspec.
      rewrite Hup in Hspec. destruct updated as [p' |].
      * destruct Hspec as (l1 & p & l2 & -> & -> & -> & _).
        apply Forall2_app; [apply Forall_Forall2_diag, Forall_forall;
                            intros; apply same_but_HP_refl |].
        constructor; [by repeat split |].
        apply Forall_Forall2_diag, Forall_forall.
        intros; apply same_but_HP_refl.
      * destruct Hspec as [-> _].
        apply Forall_Forall2_diag, Forall_forall.
        intros; apply same_but_HP_refl.
  - intros l1 p l2 s n Hc Hdocs Hl1 Hid Hhp Hn.
    destruct Honly as (Hname & Ht & Ha & Hd & Hsa & Hsd & Hsp).
    assert (Hs : s ≠ "") by (intros ->; discriminate Hn).
    unfold put_pokemon, try_catch, put_try, mbind, Eff_bind, lift, command,
      mret, Eff_ret.
    unfold base_updates, stat_update.
    rewrite Hname, Ht, Ha, Hd, Hsa, Hsd, Hsp, Hhp, Hid.
    destruct s as [| a s]; [done |]. cbn [truthy].
    unfold parseInt, body_object. cbn [toString]. rewrite Hn.
    cbn beta iota. rewrite Hc.
    unfold pokemon.findOneAndUpdate. cbn [pokemon.castNumber].
    cbn [pokemon.castUpdate pokemon.cast_opt pokemon.u_name_french
         pokemon.u_base pokemon.u_type pokemon.u_image
         HP Attack Defense SpecialAttack SpecialDefense Speed
         pokemon.castNumber].
    rewrite Hdocs, update_first_at by done.
    reflexivity.
Qed.

Lemma hp_fifty_only_HP : only_HP hp_fifty.
Proof. repeat split. Qed.

Lemma update_hp_only_witness :
  put_pokemon app_dir "25" hp_fifty None sample_world =
    (Sent (mkResponse 200 (JDoc (with_HP 50 (sample_doc 25 "Pikachu")))),
     mkWorld [sample_doc 1 "Bulbizarre"; sample_doc 2 "Herbizarre";
              with_HP 50 (sample_doc 25 "Pikachu")] true sample_files) ∧
  Forall2 same_but_HP (docs sample_world)
    [sample_doc 1 "Bulbizarre"; sample_doc 2 "Herbizarre";
     with_HP 50 (sample_doc 25 "Pikachu")].
Proof.
  pose proof (update_hp_only app_dir "25" hp_fifty sample_world
                hp_fifty_only_HP) as [Hframe Hset].
  assert (Hrun :
    put_pokemon app_dir "25" hp_fifty None sample_world =
    (Sent (mkResponse 200 (JDoc (with_HP 50 (sample_doc 25 "Pikachu")))),
     mkWorld [sample_doc 1 "Bulbizarre"; sample_doc 2 "Herbizarre";
              with_HP 50 (sample_doc 25 "Pikachu")] true sample_files)).
  { apply (Hset [sample_doc 1 "Bulbizarre"; sample_doc 2 "Herbizarre"]
             (sample_doc 25 "Pikachu") [] "50" 50); try reflexivity.
    intros q Hq. repeat (apply elem_of_cons in Hq as [-> | Hq]);
      [discriminate | discriminate | by apply elem_of_nil in Hq]. }
  split; [exact Hrun |].
  exact (proj2 (proj2 (Hframe _ _ Hrun))).
Defined.

(** ** Updating a record that does not exist *)

(** A rename that returns leaves nothing under the old path, unless both
    paths name the same entry. *)
Lemma renameSync_src_gone (fs fs' : gmap string Fs.Node) (src dst : string) :
  Fs.renameSync fs src dst = inr fs' →
  Fs.key src ≠ Fs.key dst →
  Fs.stat fs' src = None.
Proof.
  unfold Fs.renameSync. intros Hren Hne.
  destruct (Fs.stat fs src) as [n |] eqn:Hsrc; [| discriminate].
  destruct (Fs.stat fs (Path.dirname (Fs.key dst))) as [[] |];
    try discriminate.
  destruct n as [c |].
  - destruct (stat_file _ _ _ Hsrc) as [_ Hp].
    destruct (stat_plain fs' src Hp) as [-> Hk]. rewrite Hk in Hne.
    destruct (Path.endsWithSlash dst) eqn:Hslash; [discriminate |].
    assert (Hkd : Fs.key dst = dst) by (unfold Fs.key; by rewrite Hslash).
    rewrite Hkd in Hne.
    destruct (fs !! dst) as [[] |]; try discriminate; simplify_eq;
      by rewrite lookup_insert_ne, lookup_delete_eq.
  - assert (Hgone : fs' !! Fs.key src = None).
    { destruct (fs !! Fs.key dst) as [[] |]; try discriminate; simplify_eq;
        by rewrite lookup_insert_ne, lookup_delete_eq. }
    unfold Fs.stat.
    destruct (Path.endsWithSlash src && negb (String.eqb src "/")) eqn:E.
    + by rewrite Hgone.
    + unfold Fs.key in Hgone. by rewrite E in Hgone.
Qed.

(** C10.  An update with an upload that answers 404 found no record of the
    identity, left the collection as it was, and yet left the file system
    as the rename of the upload to [<identity><extension>] in the assets
    directory made it: the upload is at that path, and no more under its
    temporary path when the two differ.  The identity read in the route is
    a safe integer, which prints as its digits. *)
Theorem update_not_found_has_moved_upload (dir id_param : string)
  (raw : gmap string FormValue) (f : UploadedFile) (w w' : World)
  (r : Response) :
  put_pokemon dir id_param raw (Some f) w = (Sent r, w') →
  status r = 404 →
  (∀ z, parseInt_string id_param (Some 10) = Int z → safe z) →
  let pokeId := parseInt_string id_param (Some 10) in
  let final := Path.join [dir; assets;
                 num_toString pokeId +:+ Path.extname (originalname f)] in
  (∀ q, q ∈ docs w → Int (pokemon.id q) ≠ pokeId) ∧
  docs w' = docs w ∧
  Fs.renameSync (files w) (path f) final = inr (files w') ∧
  (∃ n, Fs.stat (files w) (path f) = Some n ∧
        Fs.stat (files w') final = Some n) ∧
  (Fs.key (path f) ≠ Fs.key final → Fs.stat (files w') (path f) = None).
Proof.
  intros Hrun Hst _ pokeId final.
  apply put_answered in Hrun; [| lia].
  apply put_try_returns in Hrun
    as (u & fs' & img & z & c & updated & docs' & _ & _ & [Hren _] & Hz & _
        & Hup & -> & ->).
  fold pokeId in Hz, Hren. cbn zeta in Hren.
  change (finalPath dir pokeId (Path.extname (originalname f))) with final
    in Hren.
  pose proof (update_first_spec z c (docs w)) as Hspec. rewrite Hup in Hspec.
  destruct updated as [p' |]; [discriminate Hst |].
  destruct Hspec as [-> Hnone]. cbn [docs files].
  split; [| split; [reflexivity | split; [exact Hren | split]]].
  - intros q Hq. rewrite Hz. intros [= Heq]. by apply (Hnone q Hq).
  - by apply renameSync_moved.
  - intros Hne. by apply (renameSync_src_gone _ _ _ _ Hren).
Qed.

Lemma update_not_found_has_moved_upload_witness :
  Fs.stat files_with_99 "/srv/app/assets/pokemons/99.png"
    = Some (Fs.File "upload") ∧
  Fs.stat files_with_99 temp_path = None.
Proof.
  assert (Hrun :
    put_pokemon app_dir "99" hp_fifty (Some sample_upload) sample_world =
    (Sent (mkResponse 404 (JError "Introuvable")),
     mkWorld (docs sample_world) true files_with_99))
    by (vm_compute; reflexivity).
  assert (Hsafe : ∀ z, parseInt_string "99" (Some 10) = Int z → safe z).
  { intros z Hz. vm_compute in Hz. injection Hz as <-.
    vm_compute. discriminate. }
  destruct (update_not_found_has_moved_upload _ _ _ _ _ _ _ Hrun eq_refl
              Hsafe)
    as (_ & _ & _ & (n & Hsrc & Hdst) & Hgone).
  split.
  - assert (Hn : n = Fs.File "upload")
      by (vm_compute in Hsrc; congruence).
    rewrite <- Hn. exact Hdst.
  - apply Hgone. discriminate.
Defined.

(** ** Deleting *)

(** C2, at the input where the code departs from it.  Record 25 of the
    sample world has the default placeholder as its image, and the file
    default.png is in the assets directory; deleting the record removes that
    file, which the other records still refer to. *)
Theorem delete_removes_default_placeholder :
  pokemon.image (sample_doc 25 "Pikachu") = default_image ∧
  Fs.existsSync (files sample_world) "/srv/app/assets/pokemons/default.png"
    = true ∧
  delete_pokemon app_dir "25" sample_world =
    (Sent (mkResponse 200 (JMessage "Supprimé avec succès")),
     mkWorld [sample_doc 1 "Bulbizarre"; sample_doc 2 "Herbizarre"] true
             files_without_default) ∧
  Fs.existsSync files_without_default "/srv/app/assets/pokemons/default.png"
    = false.
Proof. vm_compute. repeat split; reflexivity. Qed.

(** The first record of an identity. *)
Lemma findOne_at (z : Z) (l1 l2 : list pokemon.Doc) (p : pokemon.Doc) :
  pokemon.id p = z → (∀ q, q ∈ l1 → pokemon.id q ≠ z) →
  pokemon.findOne (l1 ++ p :: l2)%list (Int z) = inr (Some p).
Proof.
  intros Hp Hl1. unfold pokemon.findOne. cbn [pokemon.castNumber].
  f_equal. induction l1 as [| q l1 IH]; simpl.
  - by rewrite decide_True.
  - rewrite decide_False by (apply Hl1; by left).
    assert (IH' := IH (λ q' Hq', Hl1 q' (proj2 (elem_of_cons _ _ _)
                                           (or_intror Hq')))).
    destruct (list_find _ (l1 ++ p :: l2)%list) as [[i x] |]; simpl in *;
      by simplify_eq.
Qed.

Lemma delete_first_at (z : Z) (l1 l2 : list pokemon.Doc) (p : pokemon.Doc) :
  pokemon.id p = z → (∀ q, q ∈ l1 → pokemon.id q ≠ z) →
  pokemon.delete_first z (l1 ++ p :: l2)%list = (l1 ++ l2)%list.
Proof.
  intros Hp Hl1. induction l1 as [| q l1 IH]; simpl.
  - by rewrite decide_True.
  - rewrite decide_False by (apply Hl1; by left).
    rewrite IH; [reflexivity |]. intros q' Hq'. apply Hl1. by right.
Qed.

Lemma append_empty_r (s : string) : s +:+ "" = s.
Proof.
  induction s as [| c s IH]; [reflexivity |].
  change (String c s +:+ "") with (String c (s +:+ "")). by rewrite IH.
Qed.

Lemma append_snoc (a s : string) (c : ascii) :
  (a +:+ String c "") +:+ s = a +:+ String c s.
Proof.
  induction a as [| d a IH]; [reflexivity |].
  change ((String d a +:+ String c "") +:+ s)
    with (String d ((a +:+ String c "") +:+ s)).
  by rewrite IH.
Qed.

(** A string without the separator is one piece. *)
Lemma split_go_whole (sep cur s : string) :
  includes sep s = false → split_go sep 0 cur s = [cur +:+ s].
Proof.
  revert cur. induction s as [| c s IH]; intros cur Hs.
  - simpl. by rewrite append_empty_r.
  - cbn [includes] in Hs. apply orb_false_iff in Hs as [Hhere Hrest].
    cbn [split_go]. rewrite Hhere, (IH _ Hrest).
    by rewrite append_snoc.
Qed.

(** The file that the URL of an uploaded image names. *)
Lemma image_filename_local (name : string) :
  includes "/assets/pokemons/" name = false →
  image_filename (base_url +:+ name) = Some name.
Proof.
  intros Hname. unfold image_filename, split.
  cbv [base_url String.append]. simpl.
  by rewrite (split_go_whole _ _ _ Hname).
Qed.

(** X10.  Deleting a record whose image is a local one: the first record of
    the identity leaves the collection, and the file that its URL names in
    the assets directory is removed when it is there as a regular file, and
    not missed when nothing is there. *)
Lemma delete_removes_local_image (dir id_param : string) (w : World)
  (l1 l2 : list pokemon.Doc) (p : pokemon.Doc) (name : string) :
  connected w = true →
  docs w = (l1 ++ p :: l2)%list →
  (∀ q, q ∈ l1 → pokemon.id q ≠ pokemon.id p) →
  parseInt_string id_param (Some 10) = Int (pokemon.id p) →
  pokemon.image p = base_url +:+ name →
  includes "/assets/pokemons/" name = false →
  let filePath := Path.join [dir; assets; name] in
  (∀ c, Fs.stat (files w) filePath = Some (Fs.File c) →
     delete_pokemon dir id_param w =
       (Sent (mkResponse 200 (JMessage "Supprimé avec succès")),
        mkWorld (l1 ++ l2)%list true (delete filePath (files w)))) ∧
  (Fs.stat (files w) filePath = None →
     delete_pokemon dir id_param w =
       (Sent (mkResponse 200 (JMessage "Supprimé avec succès")),
        mkWorld (l1 ++ l2)%list true (files w))).
Proof.
  intros Hc Hdocs Hl1 Hid Himg Hname filePath.
  assert (Hfound : pokemon.findOne (docs w) (Int (pokemon.id p))
                   = inr (Some p)) by (rewrite Hdocs; by apply findOne_at).
  assert (Hdel : pokemon.delete_first (pokemon.id p) (docs w)
                 = (l1 ++ l2)%list) by (rewrite Hdocs; by apply delete_first_at).
  assert (Hlocal : negb (String.eqb (pokemon.image p) "")
                   && includes "/assets/pokemons/" (pokemon.image p) = true).
  { rewrite Himg. apply andb_true_iff. split.
    - reflexivity.
    - apply (includes_app "http://localhost:3000" "/assets/pokemons/" name). }
  unfold delete_pokemon, try_catch, mbind, Eff_bind, query, command, mret,
    Eff_ret, existsSync, unlinkSync, fs_call, Fs.existsSync, Fs.unlinkSync.
  rewrite Hid, Hc, Hfound, Hlocal, Himg, (image_filename_local _ Hname).
  fold filePath. cbn beta iota.
  split.
  - intros c Hstat. rewrite Hstat.
    rewrite bool_decide_eq_true_2 by eauto.
    cbn beta iota. rewrite Hstat.
    cbn [connected docs files pokemon.findOneAndDelete pokemon.castNumber].
    by rewrite Hdel, Hc.
  - intros Hstat. rewrite Hstat.
    rewrite bool_decide_eq_false_2 by (intros [? ?]; discriminate).
    cbn beta iota. rewrite ?Hc.
    cbn [connected docs files pokemon.findOneAndDelete pokemon.castNumber].
    rewrite Hdel, ?Hc. by destruct w; simplify_eq/=.
Qed.

(** * Further properties of the handlers *)

(** ** Reading *)

Lemma findOne_none (z : Z) (l : list pokemon.Doc) :
  (∀ q, q ∈ l → pokemon.id q ≠ z) →
  pokemon.findOne l (Int z) = inr None.
Proof.
  intros Hl. unfold pokemon.findOne. cbn [pokemon.castNumber]. f_equal.
  induction l as [| q l IH]; simpl; [reflexivity |].
  rewrite decide_False by (apply Hl; by left).
  assert (IH' := IH (λ q' Hq', Hl q' (proj2 (elem_of_cons _ _ _)
                                        (or_intror Hq')))).
  destruct (list_find _ l) as [[i x] |]; simpl in *; by simplify_eq.
Qed.

(** X1.  GET /pokemons/:id answers 200 with the first record whose identity
    is the number read in the parameter, and 404 when no record has it; the
    world is left as it was. *)
Theorem get_by_id_first_or_not_found (id_param : string) (z : Z) (w : World) :
  connected w = true →
  parseInt_string id_param (Some 10) = Int z →
  (∀ l1 p l2, docs w = (l1 ++ p :: l2)%list → pokemon.id p = z →
     (∀ q, q ∈ l1 → pokemon.id q ≠ z) →
     get_pokemon id_param w = (Sent (mkResponse 200 (JDoc p)), w)) ∧
  ((∀ q, q ∈ docs w → pokemon.id q ≠ z) →
     get_pokemon id_param w =
       (Sent (mkResponse 404 (JError "Non trouvé")), w)).
Proof.
  intros Hc Hid. split.
  - intros l1 p l2 Hdocs Hp Hl1.
    unfold get_pokemon, try_catch, mbind, Eff_bind, query, mret, Eff_ret.
    by rewrite Hc, Hid, Hdocs, (findOne_at z l1 l2 p Hp Hl1).
  - intros Hnone.
    unfold get_pokemon, try_catch, mbind, Eff_bind, query, mret, Eff_ret.
    by rewrite Hc, Hid, (findOne_none z _ Hnone).
Qed.

Lemma get_by_id_first_or_not_found_witness :
  get_pokemon "2" sample_world =
    (Sent (mkResponse 200 (JDoc (sample_doc 2 "Herbizarre"))), sample_world) ∧
  get_pokemon "7abc" sample_world =
    (Sent (mkResponse 404 (JError "Non trouvé")), sample_world).
Proof.
  split.
  - apply (proj1 (get_by_id_first_or_not_found "2" 2 sample_world
                    eq_refl eq_refl)
             [sample_doc 1 "Bulbizarre"] (sample_doc 2 "Herbizarre")
             [sample_doc 25 "Pikachu"]); [reflexivity | reflexivity |].
    intros q Hq. apply elem_of_cons in Hq as [-> | Hq];
      [discriminate | by apply elem_of_nil in Hq].
  - apply (proj2 (get_by_id_first_or_not_found "7abc" 7 sample_world
                    eq_refl eq_refl)).
    intros q Hq. repeat (apply elem_of_cons in Hq as [-> | Hq]);
      [discriminate | discriminate | discriminate
      | by apply elem_of_nil in Hq].
Defined.

(** X2.  The three routes that only read always answer, and leave the
    collection and the files as they were. *)
Theorem read_routes_leave_world (pcre : string → option (string → bool))
  (v : option FormValue) (id_param : string) (w : World) :
  (∃ r, get_pokemons v w = (Sent r, w)) ∧
  (∃ r, get_pokemons_search pcre v w = (Sent r, w)) ∧
  (∃ r, get_pokemon id_param w = (Sent r, w)).
Proof.
  split; [| split].
  - unfold get_pokemons, try_catch, mbind, Eff_bind, lift, query, mret,
      Eff_ret.
    destruct (parseInt query_object v None) as [e | n]; [eauto |].
    destruct (connected w) eqn:Hc; [| eauto].
    destruct (pokemon.find_skip_limit _ _ _); [eauto |].
    cbn beta iota. rewrite Hc. eauto.
  - unfold get_pokemons_search, try_catch, mbind, Eff_bind, query, mret,
      Eff_ret, throw.
    destruct (js_or v (Some (FStr ""))) as [[s | l | o] |]; eauto.
    destruct (bool_decide (trim s = "")); [eauto |].
    destruct (connected w) eqn:Hc; [| eauto].
    destruct (find_regex pcre s (docs w)); eauto.
  - unfold get_pokemon, try_catch, mbind, Eff_bind, query, mret, Eff_ret.
    destruct (connected w); [| eauto].
    destruct (pokemon.findOne _ _) as [e | [p |]]; eauto.
Qed.

(** X3.  An identity parameter in which [parseInt] reads no number is
    refused by the collection: GET and DELETE by identity answer the server
    error, and so does PUT with its own message, without touching the
    world. *)
Theorem non_numeric_id_is_server_error (dir id_param : string)
  (raw : gmap string FormValue) (w : World) :
  parseInt_string id_param (Some 10) = NaN →
  get_pokemon id_param w = (Sent server_error, w) ∧
  delete_pokemon dir id_param w = (Sent server_error, w) ∧
  ∃ e, put_pokemon dir id_param raw None w =
         (Sent (mkResponse 500 (JError (message e))), w).
Proof.
  intros Hid. split; [| split].
  - unfold get_pokemon, try_catch, mbind, Eff_bind, query, mret, Eff_ret.
    rewrite Hid. by destruct (connected w).
  - unfold delete_pokemon, try_catch, mbind, Eff_bind, query, mret, Eff_ret.
    rewrite Hid. by destruct (connected w).
  - unfold put_pokemon, try_catch, put_try, upload_catch, cleanup, mbind,
      Eff_bind, lift, command, mret, Eff_ret.
    rewrite Hid.
    destruct (base_updates raw) as [e | u]; [by exists e |].
    cbn beta iota. destruct (connected w); [| by exists MongoError].
    unfold pokemon.findOneAndUpdate. cbn [pokemon.castNumber].
    by exists CastError.
Qed.

Lemma non_numeric_id_is_server_error_witness :
  get_pokemon "pikachu" sample_world = (Sent server_error, sample_world) ∧
  delete_pokemon app_dir "pikachu" sample_world
    = (Sent server_error, sample_world).
Proof.
  destruct (non_numeric_id_is_server_error app_dir "pikachu" ∅ sample_world
              eq_refl) as (Hget & Hdel & _).
  split; [exact Hget | exact Hdel].
Defined.

(** X4.  When the database does not answer, every route that needs it
    answers an error and leaves the world as it was: 500 for the list, a
    search that is not blank, and GET, DELETE and PUT by identity, 400 for a
    create (the two last without an upload). *)
Theorem database_down_answers_error (dir : string)
  (pcre : string → option (string → bool)) (v : option FormValue)
  (x id_param : string) (raw : gmap string FormValue) (w : World) :
  connected w = false →
  get_pokemons v w = (Sent server_error, w) ∧
  (trim x ≠ "" →
   get_pokemons_search pcre (Some (FStr x)) w = (Sent server_error, w)) ∧
  get_pokemon id_param w = (Sent server_error, w) ∧
  delete_pokemon dir id_param w = (Sent server_error, w) ∧
  (∃ e, put_pokemon dir id_param raw None w =
          (Sent (mkResponse 500 (JError (message e))), w)) ∧
  (∃ e, post_pokemons dir raw None w =
          (Sent (mkResponse 400 (JError (message e))), w)).
Proof.
  intros Hc. repeat split.
  - unfold get_pokemons, try_catch, mbind, Eff_bind, lift, query, mret,
      Eff_ret.
    destruct (parseInt query_object v None); by rewrite ?Hc.
  - intros Hx.
    assert (Hne : x ≠ "") by (intros ->; by apply Hx).
    unfold get_pokemons_search, try_catch, js_or, mbind, Eff_bind, query,
      mret, Eff_ret.
    destruct x as [| c x]; [done |]. cbn [truthy].
    rewrite bool_decide_eq_false_2 by exact Hx. by rewrite Hc.
  - unfold get_pokemon, try_catch, mbind, Eff_bind, query, mret, Eff_ret.
    by rewrite Hc.
  - unfold delete_pokemon, try_catch, mbind, Eff_bind, query, mret, Eff_ret.
    by rewrite Hc.
  - unfold put_pokemon, try_catch, put_try, upload_catch, cleanup, mbind,
      Eff_bind, lift, command, mret, Eff_ret.
    destruct (base_updates raw) as [e | u]; [by exists e |].
    cbn beta iota. rewrite Hc. by exists MongoError.
  - unfold post_pokemons, try_catch, post_try, upload_catch, cleanup, mbind,
      Eff_bind, lift, query, mret, Eff_ret.
    destruct (read_base raw) as [e | b]; [by exists e |].
    rewrite Hc. by exists MongoError.
Qed.

Lemma database_down_answers_error_witness :
  get_pokemons None (mkWorld [] false ∅) =
    (Sent server_error, mkWorld [] false ∅) ∧
  get_pokemons_search no_pcre (Some (FStr "pika")) (mkWorld [] false ∅) =
    (Sent server_error, mkWorld [] false ∅).
Proof.
  destruct (database_down_answers_error app_dir no_pcre None "pika" "1" ∅
              (mkWorld [] false ∅) eq_refl) as (Hlist & Hsearch & _).
  split; [exact Hlist | apply Hsearch; discriminate].
Defined.

(** ** Listing, at its edges *)

(** X5.  A page parameter that reads as 0 is taken for page 1, since 0 is
    falsy; one that reads as a negative number makes the skip negative, and
    the list answers the server error. *)
Theorem list_page_zero_and_negative (v : option FormValue) (n : Z)
  (w : World) :
  parseInt query_object v None = inr (Int n) →
  (n = 0 → get_pokemons v w = get_pokemons (Some (FStr "1")) w) ∧
  (n < 0 → get_pokemons v w = (Sent server_error, w)).
Proof.
  intros Hp. split.
  - intros ->.
    unfold get_pokemons, try_catch, mbind, Eff_bind, lift, query, mret,
      Eff_ret.
    rewrite Hp. reflexivity.
  - intros Hn.
    unfold get_pokemons, try_catch, mbind, Eff_bind, lift, query, mret,
      Eff_ret.
    rewrite Hp. cbn [num_or].
    destruct (n =? 0) eqn:E; [lia |].
    destruct (connected w); [| reflexivity].
    unfold pokemon.find_skip_limit.
    destruct ((n - 1) * 20 <? 0) eqn:E'; [reflexivity | lia].
Qed.

Lemma list_page_zero_and_negative_witness :
  get_pokemons (Some (FStr "0")) world25 =
    get_pokemons (Some (FStr "1")) world25 ∧
  get_pokemons (Some (FStr "-2")) world25 = (Sent server_error, world25).
Proof.
  split.
  - exact (proj1 (list_page_zero_and_negative (Some (FStr "0")) 0 world25
                    eq_refl) eq_refl).
  - exact (proj2 (list_page_zero_and_negative (Some (FStr "-2")) (-2) world25
                    eq_refl) eq_refl).
Defined.

(** X6.  For a page number from 1 on, the list answers at most 20 records,
    and none exactly when the page is beyond the number of pages it
    announces. *)
Theorem list_page_empty_iff_beyond (v : option FormValue) (n : Z) (w : World) :
  connected w = true →
  parseInt query_object v None = inr (Int n) →
  1 ≤ n →
  ∃ total data,
    get_pokemons v w = (Sent (mkResponse 200 (JPage (Int n) total data)), w) ∧
    total = ceil_div (Z.of_nat (List.length (docs w))) 20 ∧
    (List.length data ≤ 20)%nat ∧
    (data = [] ↔ total < n).
Proof.
  intros Hc Hp Hn.
  assert (Hor : num_or (Int n) 1 = n)
    by (simpl; destruct (n =? 0) eqn:E; lia).
  pose proof (get_pokemons_at w v (Int n) Hc Hp) as Hat.
  rewrite Hor in Hat. specialize (Hat Hn).
  eexists _, _. split; [exact Hat |]. split; [reflexivity |].
  set (k := Z.to_nat ((n - 1) * 20)).
  assert (Hlen : List.length (take 20 (drop k (docs w)))
                 = (20 `min` (List.length (docs w) - k))%nat)
    by (by rewrite length_take, length_drop).
  split; [lia |].
  rewrite <- length_zero_iff_nil, Hlen. unfold ceil_div.
  split; intros H; subst k; Z.div_mod_to_equations; lia.
Qed.

Lemma list_page_empty_iff_beyond_witness :
  ∃ total data,
    get_pokemons (Some (FStr "2")) world25 =
      (Sent (mkResponse 200 (JPage (Int 2) total data)), world25) ∧
    total = ceil_div (Z.of_nat (List.length (docs world25))) 20 ∧
    (List.length data ≤ 20)%nat ∧
    (data = [] ↔ total < 2).
Proof.
  apply (list_page_empty_iff_beyond (Some (FStr "2")) 2 world25);
    [reflexivity | reflexivity | lia].
Defined.

(** ** Searching, at its edges *)

(** X7.  A query parameter that is an array or an object has no method
    [trim]: the search answers the server error. *)
Theorem search_rejects_non_string (pcre : string → option (string → bool))
  (q : FormValue) (w : World) :
  (∀ s, q ≠ FStr s) →
  get_pokemons_search pcre (Some q) w = (Sent server_error, w).
Proof.
  intros Hq. unfold get_pokemons_search, try_catch, js_or.
  destruct q as [s | l | o]; [by destruct (Hq s) | reflexivity | reflexivity].
Qed.

Lemma search_rejects_non_string_witness :
  get_pokemons_search no_pcre (Some (FArr [FStr "a"; FStr "b"])) sample_world
    = (Sent server_error, sample_world).
Proof.
  apply search_rejects_non_string. intros s. discriminate.
Defined.

(** X8.  The search does not tell the case of its query: two queries
    without pattern characters that differ by case only give the same
    answer. *)
Theorem search_ignores_case (pcre : string → option (string → bool))
  (x y : string) (w : World) :
  connected w = true →
  trim x ≠ "" → trim y ≠ "" →
  Regex.is_literal x = true → Regex.is_literal y = true →
  toLowerCase x = toLowerCase y →
  get_pokemons_search pcre (Some (FStr x)) w =
  get_pokemons_search pcre (Some (FStr y)) w.
Proof.
  intros Hc Hx Hy Hlx Hly Hxy.
  assert (Hfx : name_matches pcre x = inr
    (Regex.test (Regex.seq_of (Regex.Chr <$> list_ascii_of_string x))))
    by (unfold name_matches; by rewrite compile_literal).
  assert (Hfy : name_matches pcre y = inr
    (Regex.test (Regex.seq_of (Regex.Chr <$> list_ascii_of_string y))))
    by (unfold name_matches; by rewrite compile_literal).
  rewrite (search_matching pcre w x _ Hx Hfx Hc).
  rewrite (search_matching pcre w y _ Hy Hfy Hc).
  do 4 f_equal. apply list_filter_iff. intros p.
  rewrite !test_literal. unfold contains_ci. by rewrite Hxy.
Qed.

Lemma search_ignores_case_witness :
  get_pokemons_search no_pcre (Some (FStr "PIKA")) sample_world =
  get_pokemons_search no_pcre (Some (FStr "piKa")) sample_world.
Proof.
  apply search_ignores_case; try reflexivity; discriminate.
Defined.

(** ** Deleting, at its edges *)

(** X9.  DELETE of an identity that no record has answers 404 and changes
    neither the collection nor the files. *)
Theorem delete_absent_is_not_found (dir id_param : string) (z : Z)
  (w : World) :
  connected w = true →
  parseInt_string id_param (Some 10) = Int z →
  (∀ q, q ∈ docs w → pokemon.id q ≠ z) →
  delete_pokemon dir id_param w =
    (Sent (mkResponse 404 (JError "Introuvable")), w).
Proof.
  intros Hc Hid Hnone.
  unfold delete_pokemon, try_catch, mbind, Eff_bind, query, mret, Eff_ret.
  by rewrite Hc, Hid, (findOne_none z _ Hnone).
Qed.

Lemma delete_absent_is_not_found_witness :
  delete_pokemon app_dir "99" sample_world =
    (Sent (mkResponse 404 (JError "Introuvable")), sample_world).
Proof.
  apply (delete_absent_is_not_found app_dir "99" 99 sample_world);
    [reflexivity | reflexivity |].
  intros q Hq. repeat (apply elem_of_cons in Hq as [-> | Hq]);
    [discriminate | discriminate | discriminate | by apply elem_of_nil in Hq].
Defined.

Lemma delete_removes_local_image_witness :
  delete_pokemon app_dir "26" world_with_mew =
    (Sent (mkResponse 200 (JMessage "Supprimé avec succès")),
     mkWorld (docs sample_world) true (delete mew_path files_with_mew)).
Proof.
  apply (proj1 (delete_removes_local_image app_dir "26" world_with_mew
                  (docs sample_world) [] (mew mew_image) "26.png"
                  eq_refl eq_refl
                  ltac:(intros q Hq;
                        repeat (apply elem_of_cons in Hq as [-> | Hq]);
                        [discriminate | discriminate | discriminate
                        | by apply elem_of_nil in Hq])
                  eq_refl eq_refl eq_refl) "upload").
  reflexivity.
Defined.

(** X11.  Deleting a record whose image URL does not point into the assets
    area removes the record and leaves every file alone. *)
Theorem delete_keeps_files_of_remote_image (dir id_param : string) (w : World)
  (l1 l2 : list pokemon.Doc) (p : pokemon.Doc) :
  connected w = true →
  docs w = (l1 ++ p :: l2)%list →
  (∀ q, q ∈ l1 → pokemon.id q ≠ pokemon.id p) →
  parseInt_string id_param (Some 10) = Int (pokemon.id p) →
  includes "/assets/pokemons/" (pokemon.image p) = false →
  delete_pokemon dir id_param w =
    (Sent (mkResponse 200 (JMessage "Supprimé avec succès")),
     mkWorld (l1 ++ l2)%list true (files w)).
Proof.
  intros Hc Hdocs Hl1 Hid Himg.
  assert (Hfound : pokemon.findOne (docs w) (Int (pokemon.id p))
                   = inr (Some p)) by (rewrite Hdocs; by apply findOne_at).
  assert (Hdel : pokemon.delete_first (pokemon.id p) (docs w)
                 = (l1 ++ l2)%list) by (rewrite Hdocs; by apply delete_first_at).
  unfold delete_pokemon, try_catch, mbind, Eff_bind, query, command, mret,
    Eff_ret.
  rewrite Hid, Hc, Hfound, Himg, andb_false_r.
  cbn beta iota. rewrite ?Hc.
  cbn [connected docs files pokemon.findOneAndDelete pokemon.castNumber].
  rewrite Hdel, ?Hc. by destruct w; simplify_eq/=.
Qed.

Lemma delete_keeps_files_of_remote_image_witness :
  delete_pokemon app_dir "7"
    (mkWorld [sample_doc 1 "Bulbizarre"; remote_doc] true sample_files) =
    (Sent (mkResponse 200 (JMessage "Supprimé avec succès")),
     mkWorld [sample_doc 1 "Bulbizarre"] true sample_files).
Proof.
  apply (delete_keeps_files_of_remote_image app_dir "7"
           (mkWorld [sample_doc 1 "Bulbizarre"; remote_doc] true sample_files)
           [sample_doc 1 "Bulbizarre"] [] remote_doc);
    try reflexivity.
  intros q Hq. apply elem_of_cons in Hq as [-> | Hq];
    [discriminate | by apply elem_of_nil in Hq].
Defined.

(** ** Creating *)

Lemma cleanup_keeps_docs (file : option UploadedFile) (w : World) :
  docs (cleanup file w).2 = docs w ∧
  connected (cleanup file w).2 = connected w.
Proof.
  destruct (cleanup_cases file w)
    as [[-> _] | [(f & c & _ & _ & ->) | (f & e & _ & _ & ->)]]; auto.
Qed.

Lemma upload_catch_keeps_docs (code : Z) (file : option UploadedFile)
  (e : Error) (w : World) :
  docs (upload_catch code file e w).2 = docs w ∧
  connected (upload_catch code file e w).2 = connected w.
Proof.
  unfold upload_catch, mbind, Eff_bind, mret, Eff_ret.
  pose proof (cleanup_keeps_docs file w) as Hd.
  destruct (cleanup file w) as [[e1 | []] w1]; exact Hd.
Qed.

(** What POST leaves: the outcome of its [try] block when that returns,
    and otherwise the collection as it was and, if an answer at all, the
    answer 400. *)
Lemma post_cases (dir : string) (raw : gmap string FormValue)
  (file : option UploadedFile) (w : World) :
  (∃ r, post_try dir raw file w = (inr r, (post_pokemons dir raw file w).2) ∧
        (post_pokemons dir raw file w).1 = Sent r) ∨
  (docs (post_pokemons dir raw file w).2 = docs w ∧
   ∀ r, (post_pokemons dir raw file w).1 = Sent r → status r = 400).
Proof.
  unfold post_pokemons, try_catch.
  destruct (post_try dir raw file w) as [[e | r] w1] eqn:Htry.
  - right.
    assert (Hd : docs w1 = docs w).
    { apply post_try_throws in Htry as [-> | (f & fs' & _ & _ & ->)]; auto. }
    pose proof (upload_catch_keeps_docs 400 file e w1) as [Hk _].
    destruct (upload_catch 400 file e w1) as [[e1 | r1] w2] eqn:Hcatch;
      simpl in *; split; try congruence.
    intros r Hr. apply upload_catch_sent in Hcatch. by simplify_eq.
  - left. exists r. auto.
Qed.

(** X12.  A create either stores exactly one new record, after the others,
    and answers 201 with it, or leaves the collection as it was; in the
    second case its answer, if it gives one, is a 400. *)
Theorem create_stores_one_or_nothing (dir : string)
  (raw : gmap string FormValue) (file : option UploadedFile) (w : World) :
  (∃ p, (post_pokemons dir raw file w).1 = Sent (mkResponse 201 (JDoc p)) ∧
        docs (post_pokemons dir raw file w).2 = (docs w ++ [p])%list) ∨
  (docs (post_pokemons dir raw file w).2 = docs w ∧
   ∀ r, (post_pokemons dir raw file w).1 = Sent r → status r = 400).
Proof.
  destruct (post_cases dir raw file w) as [(r & Htry & Hout) | ?];
    [left | by right].
  apply post_try_returns in Htry
    as (base & fs' & image & p & _ & _ & _ & _ & -> & Hw).
  exists p. by rewrite Hw.
Qed.

Lemma castStrings_strs (l : list string) :
  pokemon.castStrings (FStr <$> l) = inr l.
Proof.
  induction l as [| s l IH]; [reflexivity |].
  rewrite fmap_cons. cbn [pokemon.castStrings pokemon.castString].
  by rewrite IH.
Qed.

(** X13.  The name of a created record is the field [name.french] of the
    body when that is a non-empty string; without it, the [french] entry of
    a nested [name]; and without either, a plain [name]. *)
Theorem create_name_source (dir : string) (raw : gmap string FormValue)
  (file : option UploadedFile) (w w' : World) (p : pokemon.Doc) :
  post_pokemons dir raw file w = (Sent (mkResponse 201 (JDoc p)), w') →
  (∀ s, raw !! "name.french" = Some (FStr s) → s ≠ "" →
        pokemon.name_french p = s) ∧
  (∀ o s, truthy (raw !! "name.french") = false →
          raw !! "name" = Some (FObj o) → o !! "french" = Some (FStr s) →
          s ≠ "" → pokemon.name_french p = s) ∧
  (∀ s, truthy (raw !! "name.french") = false →
        raw !! "name" = Some (FStr s) → pokemon.name_french p = s).
Proof.
  intros Hrun. apply post_created in Hrun; [| reflexivity].
  apply post_try_returns in Hrun
    as (base & fs' & image & p' & _ & _ & _ & Hval & Hr & _).
  injection Hr as <-.
  apply validate_fields in Hval as (_ & _ & _ & _ & Hname).
  cbn [pokemon.d_name_french] in Hname. unfold read_name, js_or in Hname.
  repeat split.
  - intros s Hs Hne. rewrite Hs in Hname.
    destruct s; [done |]. simpl in Hname. congruence.
  - intros o s Hf Hn Ho Hne. rewrite Hf, Hn in Hname. simpl in Hname.
    rewrite Ho in Hname. destruct s; [done |]. simpl in Hname. congruence.
  - intros s Hf Hn. rewrite Hf, Hn in Hname. simpl in Hname. congruence.
Qed.

Lemma create_name_source_witness :
  pokemon.name_french mewtwo = "Mewtwo".
Proof.
  assert (Hrun : post_pokemons app_dir nested_fields None sample_world =
                 (Sent (mkResponse 201 (JDoc mewtwo)),
                  mkWorld (docs sample_world ++ [mewtwo])%list true
                          sample_files))
    by (vm_compute; reflexivity).
  apply (proj1 (proj2 (create_name_source _ _ _ _ _ _ Hrun))
           {[ "french" := FStr "Mewtwo" ]} "Mewtwo");
    [reflexivity | reflexivity | reflexivity | discriminate].
Defined.

(** X14.  The types of a created record: a string is split at its commas
    and each piece is trimmed, an array of strings is taken as it is, and
    a body without [type] gives no type. *)
Theorem create_type_source (dir : string) (raw : gmap string FormValue)
  (file : option UploadedFile) (w w' : World) (p : pokemon.Doc) :
  post_pokemons dir raw file w = (Sent (mkResponse 201 (JDoc p)), w') →
  (∀ s, raw !! "type" = Some (FStr s) →
        pokemon.type p = trim <$> split "," s) ∧
  (∀ l, raw !! "type" = Some (FArr (FStr <$> l)) → pokemon.type p = l) ∧
  (raw !! "type" = None → pokemon.type p = []).
Proof.
  intros Hrun. apply post_created in Hrun; [| reflexivity].
  apply post_try_returns in Hrun
    as (base & fs' & image & p' & _ & _ & _ & Hval & Hr & _).
  injection Hr as <-.
  apply validate_fields in Hval as (_ & _ & _ & Htype & _).
  cbn [pokemon.d_type] in Htype. unfold read_type in Htype.
  repeat split.
  - intros s Hs. rewrite Hs in Htype. cbn in Htype.
    rewrite (list_fmap_compose trim FStr), castStrings_strs in Htype.
    congruence.
  - intros l Hl. rewrite Hl in Htype. cbn in Htype.
    rewrite castStrings_strs in Htype. congruence.
  - intros Hn. rewrite Hn in Htype. cbn in Htype. congruence.
Qed.

Lemma create_type_source_witness :
  pokemon.type mewtwo = trim <$> split "," " Psy , Vol".
Proof.
  assert (Hrun : post_pokemons app_dir nested_fields None sample_world =
                 (Sent (mkResponse 201 (JDoc mewtwo)),
                  mkWorld (docs sample_world ++ [mewtwo])%list true
                          sample_files))
    by (vm_compute; reflexivity).
  apply (proj1 (create_type_source _ _ _ _ _ _ Hrun) " Psy , Vol").
  reflexivity.
Defined.

(** ** What the routes keep *)

Lemma update_first_ids (z : Z) (c : pokemon.CastUpdates)
  (l : list pokemon.Doc) :
  pokemon.id <$> (pokemon.update_first z c l).2 = pokemon.id <$> l.
Proof.
  induction l as [| p l IH]; [reflexivity |].
  cbn [pokemon.update_first].
  destruct (decide (pokemon.id p = z)); [reflexivity |].
  destruct (pokemon.update_first z c l) as [r l'].
  cbn [snd] in *. by rewrite !fmap_cons, IH.
Qed.

Lemma put_try_fails (dir id_param : string) (raw : gmap string FormValue)
  (file : option UploadedFile) (w w1 : World) (e : Error) :
  put_try dir id_param raw file w = (inl e, w1) →
  w1 = w ∨
  ∃ f fs', file = Some f ∧
    Fs.renameSync (files w) (path f)
      (finalPath dir (parseInt_string id_param (Some 10))
         (Path.extname (originalname f))) = inr fs' ∧
    w1 = mkWorld (docs w) (connected w) fs'.
Proof.
  intros Hrun.
  unfold put_try, mbind, Eff_bind, lift, query, command, mret, Eff_ret
    in Hrun.
  destruct (base_updates raw) as [e0 | base]; [left; by simplify_eq |].
  cbn beta iota in Hrun.
  destruct file as [f |].
  - unfold renameSync, fs_call in Hrun.
    destruct (Fs.renameSync (files w) (path f) _) as [e0 | fs'] eqn:Hren;
      [left; by simplify_eq |].
    cbn beta iota in Hrun. cbn [connected docs files] in Hrun.
    destruct (connected w) eqn:Hc; [| right; exists f, fs'; by simplify_eq].
    destruct (pokemon.findOneAndUpdate _ _ _) as [e0 | [[p |] docs']];
      try discriminate.
    right. exists f, fs'. by simplify_eq.
  - destruct (connected w) eqn:Hc; [| left; by simplify_eq].
    destruct (pokemon.findOneAndUpdate _ _ _) as [e0 | [[p |] docs']];
      try discriminate.
    left. by simplify_eq.
Qed.

(** The world after the [try] block of PUT, however it ends. *)
Lemma put_try_world (dir id_param : string) (raw : gmap string FormValue)
  (file : option UploadedFile) (w : World) :
  pokemon.id <$> docs (put_try dir id_param raw file w).2
    = pokemon.id <$> docs w ∧
  connected (put_try dir id_param raw file w).2 = connected w ∧
  (files (put_try dir id_param raw file w).2 = files w ∨
   ∃ f, file = Some f ∧
     Fs.renameSync (files w) (path f)
       (finalPath dir (parseInt_string id_param (Some 10))
          (Path.extname (originalname f)))
     = inr (files (put_try dir id_param raw file w).2)).
Proof.
  destruct (put_try dir id_param raw file w) as [[e | r] w1] eqn:Hrun;
    cbn [snd].
  - apply put_try_fails in Hrun as [-> | (f & fs' & -> & Hren & ->)];
      cbn [docs connected files]; eauto 10.
  - apply put_try_returns in Hrun
      as (base & fs' & image & z & c & updated & docs' & _ & Hc & Hfile & _
          & _ & Hupd & -> & _).
    cbn [docs connected files].
    pose proof (update_first_ids z c (docs w)) as Hids.
    rewrite Hupd in Hids. repeat split; [exact Hids | by rewrite Hc |].
    destruct file as [f |].
    + right. exists f. destruct Hfile as [Hren _]. eauto.
    + left. by destruct Hfile.
Qed.

Lemma put_keeps_ids (dir id_param : string) (raw : gmap string FormValue)
  (file : option UploadedFile) (w : World) :
  pokemon.id <$> docs (put_pokemon dir id_param raw file w).2
    = pokemon.id <$> docs w.
Proof.
  unfold put_pokemon, try_catch.
  pose proof (put_try_world dir id_param raw file w) as (Hids & _ & _).
  destruct (put_try dir id_param raw file w) as [[e | r] w1]; cbn [snd] in *;
    [| exact Hids].
  pose proof (upload_catch_keeps_docs 500 file e w1) as [Hd _].
  destruct (upload_catch 500 file e w1) as [[e1 | r1] w2]; cbn [snd] in *;
    by rewrite Hd.
Qed.

(** multer stores the upload without a look at the collection. *)
Lemma upload_single_keeps_docs (dir : string) (now : Z)
  (part : option FilePart) (w : World) :
  docs (upload_single dir now part w).2 = docs w.
Proof.
  destruct part as [f |]; [| reflexivity].
  unfold upload_single.
  destruct (bool_decide (part_name f = "")); [reflexivity |].
  destruct (destination_cases dir w) as [[e ->] | (w0 & -> & Hd & _)];
    [reflexivity |].
  unfold fs_call.
  destruct (Fs.createWriteStream _ _ _); cbn [snd docs]; exact Hd.
Qed.

Lemma with_upload_docs (dir : string) (now : Z) (part : option FilePart)
  (handler : option UploadedFile → World → Outcome * World)
  (P : list pokemon.Doc → list pokemon.Doc → Prop) (w : World) :
  P (docs w) (docs w) →
  (∀ file w1, P (docs w1) (docs (handler file w1).2)) →
  P (docs w) (docs (with_upload dir now part handler w).2).
Proof.
  intros Hrefl Hh. unfold with_upload.
  pose proof (upload_single_keeps_docs dir now part w) as Hd.
  destruct (upload_single dir now part w) as [[file | e | e] w1];
    cbn [snd] in *.
  - rewrite <- Hd. apply Hh.
  - by rewrite Hd.
  - by rewrite Hd.
Qed.

(** X15.  An update, with or without an upload and whatever its answer,
    leaves the identities of the collection as they were, in number and in
    order: no record is added, dropped or renumbered. *)
Theorem update_keeps_identities (dir : string) (now : Z)
  (part : option FilePart) (id_param : string) (raw : gmap string FormValue)
  (w : World) :
  pokemon.id <$> docs (route_put dir now part id_param raw w).2
    = pokemon.id <$> docs w.
Proof.
  unfold route_put.
  apply (with_upload_docs dir now part (put_pokemon dir id_param raw)
           (λ d d', pokemon.id <$> d' = pokemon.id <$> d)).
  - reflexivity.
  - intros file w1. apply put_keeps_ids.
Qed.

Lemma delete_first_sublist (z : Z) (l : list pokemon.Doc) :
  sublist (pokemon.delete_first z l) l.
Proof.
  induction l as [| p l IH]; simpl; [constructor |].
  destruct (decide (pokemon.id p = z)); by constructor.
Qed.

(** The collection after DELETE: as it was, or without the first record
    of one identity. *)
Lemma delete_docs (dir id_param : string) (w : World) :
  docs (delete_pokemon dir id_param w).2 = docs w ∨
  ∃ z, docs (delete_pokemon dir id_param w).2
       = pokemon.delete_first z (docs w).
Proof.
  unfold delete_pokemon, try_catch, mbind, Eff_bind, query, mret, Eff_ret.
  destruct (connected w) eqn:Hc; [| left; reflexivity].
  destruct (pokemon.findOne (docs w) _) as [e | [p |]];
    [left; reflexivity | | left; reflexivity].
  assert (Hcmd : ∀ w0 : World, docs w0 = docs w →
    let m := (command (λ d,
                match pokemon.findOneAndDelete d
                        (parseInt_string id_param (Some 10)) with
                | inr d' => inr ((), d')
                | inl e => inl e
                end);;
              mret (mkResponse 200 (JMessage "Supprimé avec succès"))) in
    docs (try_catch m (λ error, mret server_error) w0).2 = docs w ∨
    ∃ z, docs (try_catch m (λ error, mret server_error) w0).2
         = pokemon.delete_first z (docs w)).
  { intros w0 Hd. unfold try_catch, mbind, Eff_bind, command, mret, Eff_ret.
    cbn zeta. destruct (connected w0); [| by left].
    unfold pokemon.findOneAndDelete.
    destruct (pokemon.castNumber _) as [e | z]; [by left |].
    right. exists z. by rewrite Hd. }
  unfold try_catch, mbind, Eff_bind, mret, Eff_ret in Hcmd. cbn zeta in Hcmd.
  destruct (negb _ && _).
  - destruct (image_filename (pokemon.image p)) as [name |];
      [| left; reflexivity].
    unfold existsSync, unlinkSync, fs_call.
    destruct (Fs.existsSync (files w) _); cbn beta iota.
    + destruct (Fs.unlinkSync (files w) _) as [e | fs']; [by left |].
      cbn beta iota.
      apply (Hcmd (mkWorld (docs w) (connected w) fs')). reflexivity.
    + by apply Hcmd.
  - cbn beta iota. by apply Hcmd.
Qed.

(** Among safe identities the one assigned is above those stored, and
    is at most 2^53. *)
Lemma assigned_id_fresh (l : list pokemon.Doc) (q : pokemon.Doc) :
  (∀ p, p ∈ l → safe (pokemon.id p)) →
  q ∈ l →
  pokemon.id q < assigned_id (pokemon.findOne_sort_id_desc l) ∧
  Z.abs (assigned_id (pokemon.findOne_sort_id_desc l)) ≤ 9007199254740992.
Proof.
  intros Hsafe Hq. pose proof (findOne_sort_id_desc_spec l) as Hmax.
  destruct (pokemon.findOne_sort_id_desc l) as [m |]; simpl.
  - destruct Hmax as [Hm Hmax]. specialize (Hmax q Hq).
    pose proof (Hsafe m Hm) as Hsm.
    rewrite (add_one_safe _ Hsm). unfold safe, MAX_SAFE_INTEGER in Hsm. lia.
  - subst l. by apply elem_of_nil in Hq.
Qed.

Lemma post_keeps_distinct (dir : string) (raw : gmap string FormValue)
  (file : option UploadedFile) (w : World) :
  (∀ q, q ∈ docs w → safe (pokemon.id q)) →
  NoDup (pokemon.id <$> docs w) →
  NoDup (pokemon.id <$> docs (post_pokemons dir raw file w).2).
Proof.
  intros Hsafe Hnd.
  destruct (post_cases dir raw file w) as [(r & Htry & _) | [-> _]];
    [| exact Hnd].
  apply post_try_returns in Htry
    as (base & fs' & image & p & _ & _ & _ & Hval & _ & ->).
  apply validate_fields in Hval as (Hid & _).
  cbn [docs pokemon.d_id] in *. rewrite fmap_app. apply NoDup_app.
  split; [exact Hnd |]. split; [| apply NoDup_singleton].
  intros z Hz Hz'. apply list_elem_of_fmap in Hz as (q & -> & Hq).
  apply list_elem_of_fmap in Hz' as (p' & Hp' & Hin).
  apply elem_of_cons in Hin as [-> | Hin]; [| by apply elem_of_nil in Hin].
  apply (assigned_id_fresh _ _ Hsafe) in Hq. lia.
Qed.

(** X16.  No route gives two records one identity: if the identities of
    the collection are safe integers and distinct before a create, an update
    or a delete, they are distinct after it. *)
Theorem routes_keep_identities_distinct (dir : string) (now : Z)
  (part : option FilePart) (id_param : string) (raw : gmap string FormValue)
  (w : World) :
  (∀ q, q ∈ docs w → safe (pokemon.id q)) →
  NoDup (pokemon.id <$> docs w) →
  NoDup (pokemon.id <$> docs (route_post dir now part raw w).2) ∧
  NoDup (pokemon.id <$> docs (route_put dir now part id_param raw w).2) ∧
  NoDup (pokemon.id <$> docs (delete_pokemon dir id_param w).2).
Proof.
  intros Hsafe Hnd. repeat split.
  - unfold route_post.
    apply (with_upload_docs dir now part (post_pokemons dir raw)
             (λ d d', (∀ q, q ∈ d → safe (pokemon.id q)) →
                      NoDup (pokemon.id <$> d) → NoDup (pokemon.id <$> d')));
      [done | | exact Hsafe | exact Hnd].
    intros file w1. apply post_keeps_distinct.
  - unfold route_put.
    apply (with_upload_docs dir now part (put_pokemon dir id_param raw)
             (λ d d', NoDup (pokemon.id <$> d) → NoDup (pokemon.id <$> d')));
      [done | | exact Hnd].
    intros file w1. by rewrite put_keeps_ids.
  - destruct (delete_docs dir id_param w) as [-> | [z ->]]; [exact Hnd |].
    eapply sublist_NoDup; [exact Hnd |].
    apply fmap_sublist, delete_first_sublist.
Qed.

Lemma routes_keep_identities_distinct_witness :
  NoDup (pokemon.id <$>
         docs (route_post app_dir sample_now (Some sample_part) mew_fields
                 quiet_world).2) ∧
  NoDup (pokemon.id <$>
         docs (route_put app_dir sample_now (Some sample_part) "25" mew_fields
                 quiet_world).2) ∧
  NoDup (pokemon.id <$> docs (delete_pokemon app_dir "25" quiet_world).2).
Proof.
  apply routes_keep_identities_distinct.
  - intros q Hq. repeat (apply elem_of_cons in Hq as [-> | Hq]);
      [vm_compute; discriminate | vm_compute; discriminate
      | vm_compute; discriminate | by apply elem_of_nil in Hq].
  - apply (bool_decide_unpack _). vm_compute. exact I.
Defined.

(** ** An identity as a route parameter *)

Lemma pretty_N_char_digit (d : N) :
  (d < 10)%N → digit_value (pretty_N_char d) = Some (Z.of_N d).
Proof.
  intros Hd.
  assert (H : (d = 0 ∨ d = 1 ∨ d = 2 ∨ d = 3 ∨ d = 4 ∨ d = 5 ∨ d = 6 ∨ d = 7
               ∨ d = 8 ∨ d = 9)%N) by lia.
  repeat (destruct H as [-> | H]; [reflexivity |]). by subst.
Qed.

(** Reading the decimal digits of a positive number gives the number. *)
Lemma parse_digits_pretty (x : N) :
  (0 < x)%N →
  ∃ k, ∀ s acc,
    parse_digits 10 acc (pretty_N_go x s)
    = parse_digits 10 (Some (default 0 acc * k + Z.of_N x)) s.
Proof.
  induction (N.lt_wf_0 x) as [x _ IH]. intros Hx.
  assert (Hgo : ∀ s, pretty_N_go x s
    = pretty_N_go (x `div` 10) (String (pretty_N_char (x `mod` 10)) s))
    by (intros s; by apply pretty_N_go_step).
  pose proof (N.div_mod x 10 ltac:(lia)) as Hdm.
  pose proof (N.mod_lt x 10 ltac:(lia)) as Hlt.
  revert Hgo Hdm Hlt.
  generalize (x `div` 10)%N (x `mod` 10)%N. intros q r Hgo Hdm Hlt.
  assert (Hstep : ∀ s acc,
    parse_digits 10 acc (String (pretty_N_char r) s)
    = parse_digits 10 (Some (default 0 acc * 10 + Z.of_N r)) s).
  { intros s acc. cbn [parse_digits].
    rewrite (pretty_N_char_digit _ Hlt).
    destruct (Z.of_N r <? 10) eqn:E; [reflexivity | lia]. }
  destruct (decide (q = 0)%N) as [Hz | Hnz].
  - exists 10. intros s acc.
    rewrite Hgo, Hz, pretty_N_go_0, Hstep.
    do 2 f_equal. lia.
  - destruct (IH q) as [k Hk]; [lia | lia |].
    exists (k * 10). intros s acc.
    rewrite Hgo, Hk, Hstep. cbn [default].
    do 2 f_equal.
    replace (Z.of_N x) with (10 * Z.of_N q + Z.of_N r) by lia.
    unfold id. ring.
Qed.

Lemma pretty_N_go_head (x : N) (s : string) :
  (0 < x)%N →
  ∃ d rest, (d < 10)%N ∧ pretty_N_go x s = String (pretty_N_char d) rest.
Proof.
  revert s. induction (N.lt_wf_0 x) as [x _ IH]. intros s Hx.
  rewrite pretty_N_go_step by done.
  pose proof (N.div_mod x 10 ltac:(lia)) as Hdm.
  pose proof (N.mod_lt x 10 ltac:(lia)) as Hlt.
  destruct (decide (x `div` 10 = 0)%N) as [Hz | Hnz].
  - rewrite Hz, pretty_N_go_0. eauto.
  - apply IH; [| lia]. revert Hdm Hnz.
    generalize (x `div` 10)%N (x `mod` 10)%N. lia.
Qed.

Lemma parseInt_digit_head (d : N) (rest : string) :
  (d < 10)%N →
  parseInt_string (String (pretty_N_char d) rest) (Some 10)
  = match parse_digits 10 None (String (pretty_N_char d) rest) with
    | None => NaN
    | Some m => Int (to_double (1 * m))
    end ∧
  parseInt_string (String "-" (String (pretty_N_char d) rest)) (Some 10)
  = match parse_digits 10 None (String (pretty_N_char d) rest) with
    | None => NaN
    | Some m => Int (to_double (-1 * m))
    end.
Proof.
  intros Hd.
  assert (H : (d = 0 ∨ d = 1 ∨ d = 2 ∨ d = 3 ∨ d = 4 ∨ d = 5 ∨ d = 6 ∨ d = 7
               ∨ d = 8 ∨ d = 9)%N) by lia.
  repeat (destruct H as [-> | H]; [split; reflexivity |]).
  subst. split; reflexivity.
Qed.

(** [parseInt] reads back what a template literal printed, for an integer
    up to 2^53. *)
Lemma parseInt_num_toString (z : Z) :
  Z.abs z ≤ 9007199254740992 →
  parseInt_string (num_toString (Int z)) (Some 10) = Int z.
Proof.
  intros Hz.
  assert (Hpos : ∀ x : positive,
    parseInt_string (pretty_N_go (N.pos x) "") (Some 10)
      = Int (to_double (Z.pos x)) ∧
    parseInt_string (String "-" (pretty_N_go (N.pos x) "")) (Some 10)
      = Int (to_double (Z.neg x))).
  { intros x.
    destruct (pretty_N_go_head (N.pos x) "" ltac:(lia))
      as (d & rest & Hd & Hhead).
    destruct (parse_digits_pretty (N.pos x) ltac:(lia)) as [k Hk].
    specialize (Hk "" None). cbn [parse_digits default] in Hk.
    destruct (parseInt_digit_head d rest Hd) as [H1 H2].
    rewrite Hhead, H1, H2. rewrite <- Hhead, Hk.
    split; do 2 f_equal; lia. }
  destruct z as [| x | x]; [reflexivity | |].
  - rewrite <- (to_double_exact (Z.pos x) Hz) at 2. apply Hpos.
  - rewrite <- (to_double_exact (Z.neg x) Hz) at 2. apply Hpos.
Qed.

(** What [parseInt] reads is a double. *)
Lemma parseInt_string_is_double (s : string) (radix : option Z) (z : Z) :
  parseInt_string s radix = Int z → is_double z.
Proof.
  unfold parseInt_string.
  destruct (match trimStart s with
            | String "-" r => (-1, r)
            | String "+" r => (1, r)
            | _ => (1, trimStart s)
            end) as [sign S1].
  destruct (negb (default 0 radix =? 0) && _); [discriminate |].
  destruct (if _ && _ then _ else _) as [R S2].
  destruct (parse_digits R None S2) as [m |]; [| discriminate].
  intros [= <-]. apply to_double_is_double.
Qed.

(** ** One request after another *)

(** X17.  In a collection of safe identities, a record that a create has
    answered can be fetched at once under its identity, written in decimal
    as the route parameter: the fetch answers 200 with the very record of
    the 201. *)
Theorem created_record_is_fetched (dir : string)
  (raw : gmap string FormValue) (file : option UploadedFile) (w w' : World)
  (p : pokemon.Doc) :
  (∀ q, q ∈ docs w → safe (pokemon.id q)) →
  post_pokemons dir raw file w = (Sent (mkResponse 201 (JDoc p)), w') →
  get_pokemon (num_toString (Int (pokemon.id p))) w'
    = (Sent (mkResponse 200 (JDoc p)), w').
Proof.
  intros Hsafe Hrun. apply post_created in Hrun; [| reflexivity].
  apply post_try_returns in Hrun
    as (base & fs' & image & p' & _ & _ & _ & Hval & Hr & ->).
  injection Hr as <-.
  apply validate_fields in Hval as (Hid & _). cbn [pokemon.d_id] in Hid.
  assert (Hbound : Z.abs (pokemon.id p) ≤ 9007199254740992).
  { rewrite Hid.
    pose proof (findOne_sort_id_desc_spec (docs w)) as Hmax.
    destruct (pokemon.findOne_sort_id_desc (docs w)) as [m |] eqn:Hlast;
      [| simpl; lia].
    destruct Hmax as [Hm _].
    pose proof (assigned_id_fresh _ _ Hsafe Hm) as [_ Hb].
    by rewrite Hlast in Hb. }
  unfold get_pokemon, try_catch, mbind, Eff_bind, query, mret, Eff_ret.
  cbn [connected docs]. rewrite (parseInt_num_toString _ Hbound).
  rewrite (findOne_at (pokemon.id p) (docs w) [] p);
    [reflexivity | reflexivity |].
  intros q Hq. apply (assigned_id_fresh _ _ Hsafe) in Hq. lia.
Qed.

Lemma created_record_is_fetched_witness :
  get_pokemon "26" world_with_mew
    = (Sent (mkResponse 200 (JDoc (mew mew_image))), world_with_mew).
Proof.
  assert (Hrun : post_pokemons app_dir mew_fields (Some sample_upload)
                   sample_world
                 = (Sent (mkResponse 201 (JDoc (mew mew_image))),
                    world_with_mew))
    by (vm_compute; reflexivity).
  assert (Hsafe : ∀ q, q ∈ docs sample_world → safe (pokemon.id q)).
  { intros q Hq. repeat (apply elem_of_cons in Hq as [-> | Hq]);
      [vm_compute; discriminate | vm_compute; discriminate
      | vm_compute; discriminate | by apply elem_of_nil in Hq]. }
  exact (created_record_is_fetched app_dir mew_fields (Some sample_upload)
           sample_world world_with_mew (mew mew_image) Hsafe Hrun).
Defined.

(** What a DELETE that answers 200 has done to the collection. *)
Lemma delete_done (dir id_param : string) (w w' : World) (r : Response) :
  delete_pokemon dir id_param w = (Sent r, w') →
  status r = 200 →
  ∃ z, parseInt_string id_param (Some 10) = Int z ∧
       connected w' = true ∧
       docs w' = pokemon.delete_first z (docs w).
Proof.
  intros Hrun Hst.
  unfold delete_pokemon, try_catch, mbind, Eff_bind, query, mret, Eff_ret
    in Hrun.
  destruct (connected w) eqn:Hc; [| simplify_eq; discriminate].
  destruct (pokemon.findOne (docs w) _) as [e | [p |]];
    [simplify_eq; discriminate | | simplify_eq; discriminate].
  assert (Hcmd : ∀ w0 : World, docs w0 = docs w →
    match
      match command (λ d,
              match pokemon.findOneAndDelete d
                      (parseInt_string id_param (Some 10)) with
              | inr d' => inr ((), d')
              | inl e => inl e
              end) w0 with
      | (inr a, w1) =>
          (inr (mkResponse 200 (JMessage "Supprimé avec succès")), w1)
      | (inl e, w1) => (inl e, w1)
      end
    with
    | (inr r0, w1) => (Sent r0, w1)
    | (inl e, w1) => (Sent server_error, w1)
    end = (Sent r, w') →
    ∃ z, parseInt_string id_param (Some 10) = Int z ∧
         connected w' = true ∧
         docs w' = pokemon.delete_first z (docs w)).
  { intros w0 Hd Hw. unfold command in Hw.
    destruct (connected w0) eqn:Hc0; [| simplify_eq; discriminate].
    unfold pokemon.findOneAndDelete in Hw.
    destruct (parseInt_string id_param (Some 10)) as [| z];
      cbn [pokemon.castNumber] in Hw; [simplify_eq; discriminate |].
    exists z. simplify_eq. cbn [connected docs]. by rewrite Hd. }
  destruct (negb _ && _).
  - destruct (image_filename (pokemon.image p)) as [name |];
      [| unfold throw in Hrun; simplify_eq; discriminate].
    unfold existsSync, unlinkSync, fs_call in Hrun.
    destruct (Fs.existsSync (files w) _); cbn beta iota in Hrun.
    + destruct (Fs.unlinkSync (files w) _) as [e | fs'];
        [simplify_eq; discriminate |].
      cbn beta iota in Hrun.
      by apply (Hcmd (mkWorld (docs w) (connected w) fs')).
    + by apply (Hcmd w).
  - cbn beta iota in Hrun. by apply (Hcmd w).
Qed.

Lemma delete_first_gone (z : Z) (l : list pokemon.Doc) :
  NoDup (pokemon.id <$> l) →
  ∀ q, q ∈ pokemon.delete_first z l → pokemon.id q ≠ z.
Proof.
  induction l as [| p l IH]; intros Hnd q Hq; simpl in Hq;
    [by apply elem_of_nil in Hq |].
  rewrite fmap_cons in Hnd. apply NoDup_cons in Hnd as [Hp Hnd].
  destruct (decide (pokemon.id p = z)) as [<- | Hne].
  - intros Heq. apply Hp. rewrite <- Heq. by apply list_elem_of_fmap_2.
  - apply elem_of_cons in Hq as [-> | Hq]; [exact Hne | by apply IH].
Qed.

(** X18.  In a collection whose identities are distinct, a record that a
    delete has answered is gone: a fetch under the same parameter answers
    404. *)
Theorem deleted_record_is_gone (dir id_param : string) (w w' : World) :
  NoDup (pokemon.id <$> docs w) →
  delete_pokemon dir id_param w
    = (Sent (mkResponse 200 (JMessage "Supprimé avec succès")), w') →
  get_pokemon id_param w'
    = (Sent (mkResponse 404 (JError "Non trouvé")), w').
Proof.
  intros Hnd Hrun.
  apply delete_done in Hrun as (z & Hid & Hc & Hdocs); [| reflexivity].
  unfold get_pokemon, try_catch, mbind, Eff_bind, query, mret, Eff_ret.
  rewrite Hc, Hid, (findOne_none z); [reflexivity |].
  rewrite Hdocs. by apply delete_first_gone.
Qed.

Lemma deleted_record_is_gone_witness :
  get_pokemon "25" (mkWorld [sample_doc 1 "Bulbizarre";
                             sample_doc 2 "Herbizarre"] true
                            files_without_default)
    = (Sent (mkResponse 404 (JError "Non trouvé")),
       mkWorld [sample_doc 1 "Bulbizarre"; sample_doc 2 "Herbizarre"] true
               files_without_default).
Proof.
  apply (deleted_record_is_gone app_dir "25" sample_world).
  - apply (bool_decide_unpack _). vm_compute. exact I.
  - vm_compute. reflexivity.
Defined.

(** X19.  An identity is handed out again once its record is gone from
    the top: after the record of greatest identity is deleted, the next
    create gets an identity that is not above the deleted one. *)
Theorem create_after_delete_of_greatest (dir id_param : string)
  (raw : gmap string FormValue) (file : option UploadedFile)
  (w w1 w2 : World) (p p' : pokemon.Doc) :
  NoDup (pokemon.id <$> docs w) →
  (∀ q, q ∈ docs w → pokemon.id q ≤ pokemon.id p) →
  1 ≤ pokemon.id p →
  parseInt_string id_param (Some 10) = Int (pokemon.id p) →
  delete_pokemon dir id_param w
    = (Sent (mkResponse 200 (JMessage "Supprimé avec succès")), w1) →
  post_pokemons dir raw file w1 = (Sent (mkResponse 201 (JDoc p')), w2) →
  pokemon.id p' ≤ pokemon.id p.
Proof.
  intros Hnd Hmax Hpos Hid Hdel Hpost.
  apply delete_done in Hdel as (z & Hz & _ & Hdocs); [| reflexivity].
  assert (z = pokemon.id p) as -> by congruence.
  apply post_created in Hpost; [| reflexivity].
  apply post_try_returns in Hpost
    as (base & fs' & image & q & _ & _ & _ & Hval & Hr & _).
  injection Hr as <-.
  apply validate_fields in Hval as (-> & _). cbn [pokemon.d_id].
  pose proof (findOne_sort_id_desc_spec (docs w1)) as Hlast.
  destruct (pokemon.findOne_sort_id_desc (docs w1)) as [m |]; simpl;
    [| exact Hpos].
  destruct Hlast as [Hm _]. rewrite Hdocs in Hm.
  pose proof (delete_first_gone _ _ Hnd m Hm) as Hne.
  assert (Hin : m ∈ docs w).
  { eapply elem_of_sublist; [exact Hm | apply delete_first_sublist]. }
  specialize (Hmax m Hin).
  apply to_double_below; [lia | | lia].
  by apply (parseInt_string_is_double id_param (Some 10)).
Qed.

Lemma create_after_delete_of_greatest_witness :
  pokemon.id (pokemon.mkDoc 3 "Mew" ["Psy"] (mkStats 100 0 0 0 0 0)
                default_image)
  ≤ pokemon.id (sample_doc 25 "Pikachu").
Proof.
  apply (create_after_delete_of_greatest app_dir "25" mew_fields None
           sample_world
           (mkWorld [sample_doc 1 "Bulbizarre"; sample_doc 2 "Herbizarre"]
                    true files_without_default)
           (mkWorld [sample_doc 1 "Bulbizarre"; sample_doc 2 "Herbizarre";
                     pokemon.mkDoc 3 "Mew" ["Psy"] (mkStats 100 0 0 0 0 0)
                       default_image]
                    true files_without_default)).
  - apply (bool_decide_unpack _). vm_compute. exact I.
  - intros q Hq. repeat (apply elem_of_cons in Hq as [-> | Hq]);
      [vm_compute; discriminate | vm_compute; discriminate
      | vm_compute; discriminate | by apply elem_of_nil in Hq].
  - vm_compute. discriminate.
  - reflexivity.
  - vm_compute. reflexivity.
  - vm_compute. reflexivity.
Defined.

(** ** The files that a request touches *)

Lemma cleanup_frame (file : option UploadedFile) (w : World) (k : string) :
  (∀ f, file = Some f → k ≠ path f) →
  files (cleanup file w).2 !! k = files w !! k.
Proof.
  intros Hk.
  destruct (cleanup_cases file w)
    as [[-> _] | [(f & c & Hf & _ & ->) | (f & e & _ & _ & ->)]];
    [reflexivity | | reflexivity].
  cbn [snd files]. apply lookup_delete_ne. intros Heq. by apply (Hk f).
Qed.

Lemma upload_catch_frame (code : Z) (file : option UploadedFile) (e : Error)
  (w : World) (k : string) :
  (∀ f, file = Some f → k ≠ path f) →
  files (upload_catch code file e w).2 !! k = files w !! k.
Proof.
  intros Hk. unfold upload_catch, mbind, Eff_bind, mret, Eff_ret.
  pose proof (cleanup_frame file w k Hk) as Hf.
  destruct (cleanup file w) as [[e1 | []] w1]; exact Hf.
Qed.

Lemma renameSync_frame (fs fs' : gmap string Fs.Node) (src dst k : string) :
  Fs.renameSync fs src dst = inr fs' →
  k ≠ src → k ≠ Fs.key src → k ≠ dst → k ≠ Fs.key dst →
  fs' !! k = fs !! k.
Proof.
  unfold Fs.renameSync. intros Hren H1 H2 H3 H4.
  destruct (Fs.stat fs src) as [[c |] |]; [| | discriminate];
    destruct (Fs.stat fs (Path.dirname (Fs.key dst))) as [[] |];
    try discriminate.
  - destruct (Path.endsWithSlash dst); [discriminate |].
    destruct (fs !! dst) as [[] |]; simplify_eq;
      by rewrite lookup_insert_ne, lookup_delete_ne.
  - destruct (fs !! Fs.key dst) as [[] |]; simplify_eq;
      by rewrite lookup_insert_ne, lookup_delete_ne.
Qed.

(** X20.  A create or an update that comes without an upload leaves the
    files as they are, whatever it answers. *)
Theorem no_upload_no_file_change (dir id_param : string)
  (raw : gmap string FormValue) (w : World) :
  files (post_pokemons dir raw None w).2 = files w ∧
  files (put_pokemon dir id_param raw None w).2 = files w.
Proof.
  split.
  - unfold post_pokemons, try_catch.
    destruct (post_try dir raw None w) as [[e | r] w1] eqn:Htry.
    + apply post_try_throws in Htry as [-> | (f & _ & ? & _)];
        [reflexivity | discriminate].
    + apply post_try_returns in Htry
        as (base & fs' & image & p & _ & _ & [-> _] & _ & _ & ->).
      reflexivity.
  - unfold put_pokemon, try_catch.
    destruct (put_try dir id_param raw None w) as [[e | r] w1] eqn:Htry.
    + apply put_try_throws in Htry as ->. reflexivity.
    + apply put_try_returns in Htry
        as (base & fs' & image & z & c & updated & docs' & _ & _ & [-> _] & _
            & _ & _ & -> & _).
      reflexivity.
Qed.

(** X21.  With an upload, a create and an update change no path but the
    one where the upload was stored and the one it is renamed to, which is
    named after a safe integer: for a create the identities stored are
    safe, for an update the one read in the route is. *)
Theorem upload_changes_only_its_paths (dir id_param : string)
  (raw : gmap string FormValue) (f : UploadedFile) (w : World) (k : string) :
  let extension := Path.extname (originalname f) in
  let created :=
    finalPath dir (Int (assigned_id (pokemon.findOne_sort_id_desc (docs w))))
      extension in
  let updated := finalPath dir (parseInt_string id_param (Some 10)) extension in
  k ≠ path f → k ≠ Fs.key (path f) →
  ((∀ q, q ∈ docs w → safe (pokemon.id q)) →
   k ≠ created → k ≠ Fs.key created →
   files (post_pokemons dir raw (Some f) w).2 !! k = files w !! k) ∧
  ((∀ z, parseInt_string id_param (Some 10) = Int z → safe z) →
   k ≠ updated → k ≠ Fs.key updated →
   files (put_pokemon dir id_param raw (Some f) w).2 !! k = files w !! k).
Proof.
  intros extension created updated Hk Hkk.
  assert (Hcatch : ∀ code e w1,
    files (upload_catch code (Some f) e w1).2 !! k = files w1 !! k).
  { intros code e w1. apply upload_catch_frame. by intros ? [= <-]. }
  split; intros _ Hd Hdk.
  - unfold post_pokemons, try_catch.
    destruct (post_try dir raw (Some f) w) as [[e | r] w1] eqn:Htry.
    + specialize (Hcatch 400 e w1).
      destruct (upload_catch 400 (Some f) e w1) as [[e1 | r1] w2];
        cbn [snd] in *; rewrite Hcatch;
        apply post_try_throws in Htry
          as [-> | (f' & fs' & [= <-] & Hren & ->)]; try reflexivity;
        cbn [files]; by apply (renameSync_frame _ _ _ _ _ Hren).
    + apply post_try_returns in Htry
        as (base & fs' & image & p & _ & _ & [Hren _] & _ & _ & ->).
      cbn [snd files]. by apply (renameSync_frame _ _ _ _ _ Hren).
  - unfold put_pokemon, try_catch.
    pose proof (put_try_world dir id_param raw (Some f) w) as (_ & _ & Hf).
    assert (Htry : files (put_try dir id_param raw (Some f) w).2 !! k
                   = files w !! k).
    { destruct Hf as [-> | (f' & [= <-] & Hren)]; [reflexivity |].
      by apply (renameSync_frame _ _ _ _ _ Hren). }
    destruct (put_try dir id_param raw (Some f) w) as [[e | r] w1];
      cbn [snd] in *; [| exact Htry].
    specialize (Hcatch 500 e w1).
    destruct (upload_catch 500 (Some f) e w1) as [[e1 | r1] w2];
      cbn [snd] in *; by rewrite Hcatch.
Qed.

Lemma upload_changes_only_its_paths_witness :
  files (post_pokemons app_dir mew_fields (Some sample_upload) sample_world).2
    !! "/srv/app/assets/pokemons/default.png"
  = files sample_world !! "/srv/app/assets/pokemons/default.png".
Proof.
  apply (proj1 (upload_changes_only_its_paths app_dir "25" mew_fields
                  sample_upload sample_world
                  "/srv/app/assets/pokemons/default.png"
                  ltac:(vm_compute; discriminate)
                  ltac:(vm_compute; discriminate)));
    [| vm_compute; discriminate | vm_compute; discriminate].
  intros q Hq. repeat (apply elem_of_cons in Hq as [-> | Hq]);
    [vm_compute; discriminate | vm_compute; discriminate
    | vm_compute; discriminate | by apply elem_of_nil in Hq].
Defined.

(** ** Updating *)

Lemma castUpdate_fields (u : pokemon.Updates) (c : pokemon.CastUpdates) :
  pokemon.castUpdate u = inr c →
  pokemon.cast_opt pokemon.castString (pokemon.u_name_french u)
    = inr (pokemon.c_name_french c) ∧
  pokemon.cast_opt pokemon.castStringArray (pokemon.u_type u)
    = inr (pokemon.c_type c) ∧
  pokemon.c_image c = pokemon.u_image u.
Proof.
  unfold pokemon.castUpdate. intros H.
  destruct (pokemon.cast_opt pokemon.castString _) as [? | n];
    [discriminate |].
  repeat (destruct (pokemon.cast_opt pokemon.castNumber _) as [? | ?];
          [discriminate |]).
  destruct (pokemon.cast_opt pokemon.castStringArray _) as [? | t];
    [discriminate |].
  by simplify_eq.
Qed.



(** X23.  An update with an upload that answers 500 leaves nothing under
    the temporary path of the upload: the [catch] removed it, or it had
    been renamed before the failure. *)
Theorem failed_update_leaves_no_temp_file (dir id_param : string)
  (raw : gmap string FormValue) (f : UploadedFile) (w w' : World)
  (r : Response) :
  put_pokemon dir id_param raw (Some f) w = (Sent r, w') →
  status r = 500 →
  Fs.existsSync (files w') (path f) = false.
Proof.
  intros Hrun Hst. unfold put_pokemon, try_catch in Hrun.
  destruct (put_try dir id_param raw (Some f) w) as [[e | r1] w1] eqn:Htry.
  - unfold upload_catch, mbind, Eff_bind, mret, Eff_ret in Hrun.
    destruct (cleanup_cases (Some f) w1)
      as [[Hc Hgone] | [(f0 & c & Hf & Hstat & Hc) | (f0 & e0 & Hf & _ & Hc)]];
      rewrite Hc in Hrun; simplify_eq.
    + exact Hgone.
    + cbn [files]. unfold Fs.existsSync. rewrite (stat_unlinked _ _ _ Hstat).
      apply bool_decide_eq_false_2. intros [? ?]; discriminate.
  - simplify_eq. apply put_try_returns in Htry
      as (? & ? & ? & ? & ? & updated & ? & _ & _ & _ & _ & _ & _ & _ & ->).
    destruct updated; discriminate.
Qed.

Lemma failed_update_leaves_no_temp_file_witness :
  Fs.existsSync files_with_99 temp_path = false.
Proof.
  apply (failed_update_leaves_no_temp_file app_dir "99" mew_unparsable
           sample_upload sample_world
           (mkWorld (docs sample_world) true files_with_99)
           (mkResponse 500 (JError (message CastError))));
    vm_compute; reflexivity.
Defined.

(** ** From the file part to the image *)

(** X24.  What multer stored for a request becomes the image of the
    record that the request answers: when the file part has a filename and
    the identity of the record is a safe integer, after a create answered
    201, and after an update answered 200, the record's URL is the assets
    URL followed by its identity and the extension of the part's name, and
    the bytes of the part are in the file of that name in the assets
    directory. *)
Theorem uploaded_part_becomes_the_image (dir : string) (now : Z)
  (part : FilePart) (id_param : string) (raw : gmap string FormValue)
  (w w' : World) (p : pokemon.Doc) :
  part_name part ≠ "" →
  safe (pokemon.id p) →
  route_post dir now (Some part) raw w
    = (Sent (mkResponse 201 (JDoc p)), w') ∨
  route_put dir now (Some part) id_param raw w
    = (Sent (mkResponse 200 (JDoc p)), w') →
  let name := finalName (Int (pokemon.id p)) (Path.extname (part_name part)) in
  pokemon.image p = base_url +:+ name ∧
  Fs.stat (files w') (Path.join [dir; assets; name])
    = Some (Fs.File (part_content part)).
Proof.
  intros Hpart _ Hrun name. unfold route_post, route_put, with_upload in Hrun.
  destruct (upload_single dir now (Some part) w) as [[file | e | e] w1] eqn:Hup;
    [| by destruct Hrun | by destruct Hrun].
  apply upload_single_stores in Hup as (f & -> & Hname & _ & Hstat & _);
    [| exact Hpart].
  subst name. rewrite <- Hname.
  destruct Hrun as [Hrun | Hrun].
  - apply post_created in Hrun; [| reflexivity].
    apply post_try_returns in Hrun
      as (base & fs' & image & q & _ & _ & [Hren ->] & Hval & Hr & ->).
    injection Hr as <-.
    apply validate_fields in Hval as (Hid & Himg & _).
    cbn [pokemon.d_id pokemon.d_image] in Hid, Himg. rewrite <- Hid in *.
    split; [exact Himg |].
    apply renameSync_moved in Hren as (n & Hsrc & Hdst).
    cbn [files]. unfold finalPath in Hdst. congruence.
  - apply put_answered in Hrun; [| discriminate].
    apply put_try_returns in Hrun
      as (base & fs' & image & z & c & updated & docs' & _ & _ & [Hren ->]
          & Hz & Hcast & Hupd & -> & Hr).
    destruct updated as [q |]; [| discriminate]. injection Hr as <-.
    pose proof (update_first_spec z c (docs w1)) as Hspec.
    rewrite Hupd in Hspec.
    destruct Hspec as (l1 & p0 & l2 & _ & _ & -> & Hid & _).
    apply castUpdate_fields in Hcast as (_ & _ & Himage).
    cbn [pokemon.u_image] in Himage. subst z.
    cbn [pokemon.apply_set pokemon.id pokemon.image]. rewrite Himage.
    rewrite Hz in *. split; [reflexivity |].
    apply renameSync_moved in Hren as (n & Hsrc & Hdst).
    cbn [files]. unfold finalPath in Hdst. congruence.
Qed.

Lemma uploaded_part_becomes_the_image_witness :
  pokemon.image (mew mew_image) = base_url +:+ "26.png" ∧
  Fs.stat files_with_mew (Path.join [app_dir; assets; "26.png"])
    = Some (Fs.File "upload").
Proof.
  apply (uploaded_part_becomes_the_image app_dir sample_now sample_part "1"
           mew_fields quiet_world world_with_mew (mew mew_image)).
  - discriminate.
  - vm_compute. discriminate.
  - left. vm_compute. reflexivity.
Defined.
